(** * A model of [umbral/point.py]: the [Point] wrapper around OpenSSL's EC_POINT

    The Python class [Point] holds a native [EC_POINT *] handle and a [Curve].
    Every operation allocates native points, calls an OpenSSL [EC_POINT_*]
    function on them and checks the return code with [backend.openssl_assert],
    which raises cryptography's [InternalError] on failure.

    The model has three layers:
    - octets and big-endian integers ([BN_bn2binpad], [BN_bin2bn]);
    - OpenSSL's prime-field curve arithmetic and SEC1 encoding on affine
      coordinates ([ec_add], [ec_point2oct], [ec_oct2point], ...), and the
      [EC_POINT_*] functions acting on a heap of native handles;
    - the Python methods of [Point], as programs in a state and exception
      monad over that heap. *)

From Stdlib Require Import ZArith Lia Znumtheory.
From Stdlib Require Import Strings.Byte.
From stdpp Require Import base gmap list.

Open Scope Z_scope.

(* ------------------------------------------------------------------ *)
(** ** Octets and big numbers *)

Definition octet_of_Z (z : Z) : byte :=
  match Byte.of_N (Z.to_N (z mod 256)) with Some b => b | None => x00 end.

Definition Z_of_octet (b : byte) : Z := Z.of_N (Byte.to_N b).

(** [BN_bn2binpad x k]: the [k] low-order octets of [x], big-endian. *)
Fixpoint BN_bn2binpad (x : Z) (k : nat) : list byte :=
  match k with
  | O => []
  | S k' => BN_bn2binpad (x / 256) k' ++ [octet_of_Z x]
  end.

(** [BN_bin2bn]: a big-endian octet string read as a non-negative integer. *)
Definition BN_bin2bn (s : list byte) : Z :=
  fold_left (fun acc b => acc * 256 + Z_of_octet b) s 0.

(** [BN_num_bytes x = (BN_num_bits x + 7) / 8]. *)
Definition BN_num_bytes (x : Z) : Z :=
  if x <=? 0 then 0 else (Z.log2 x + 1 + 7) / 8.

(* ------------------------------------------------------------------ *)
(** ** OpenSSL's curve arithmetic over GF(p) (affine coordinates) *)

(** An [EC_GROUP]: [y^2 = x^3 + a x + b] over GF([field]), tagged with its
    curve NID ([curve_name]). *)
Record EC_GROUP := mk_EC_GROUP {
  curve_name : Z;
  field : Z;
  coef_a : Z;
  coef_b : Z
}.

(** The value of an [EC_POINT]: the point at infinity or affine coordinates
    reduced modulo the field prime. *)
Inductive ec_coords :=
| Infinity
| Affine (x y : Z).

(** A native [EC_POINT]: OpenSSL records the curve NID of the group the
    point was created for. *)
Record EC_POINT := mk_EC_POINT {
  point_curve_name : Z;
  coords : ec_coords
}.

(** Modular exponentiation by squaring, for the field inverse. *)
Fixpoint pow_mod_pos (b : Z) (e : positive) (p : Z) : Z :=
  match e with
  | xH => b mod p
  | xO e' => let r := pow_mod_pos b e' p in (r * r) mod p
  | xI e' => let r := pow_mod_pos b e' p in (r * r * b) mod p
  end.

(** Field inverse by Fermat's little theorem, [d^(p-2) mod p]. *)
Definition field_inv (d p : Z) : Z :=
  match p - 2 with
  | Zpos e => pow_mod_pos d e p
  | _ => 0
  end.

Definition ec_is_on_curve (g : EC_GROUP) (P : ec_coords) : bool :=
  match P with
  | Infinity => true
  | Affine x y =>
      (y * y - (x * x * x + coef_a g * x + coef_b g)) mod field g =? 0
  end.

Definition ec_dbl (g : EC_GROUP) (P : ec_coords) : ec_coords :=
  match P with
  | Infinity => Infinity
  | Affine x y =>
      let p := field g in
      if y mod p =? 0 then Infinity
      else
        let l := ((3 * x * x + coef_a g) * field_inv (2 * y) p) mod p in
        let x3 := (l * l - 2 * x) mod p in
        Affine x3 ((l * (x - x3) - y) mod p)
  end.

Definition ec_add (g : EC_GROUP) (P Q : ec_coords) : ec_coords :=
  match P, Q with
  | Infinity, _ => Q
  | _, Infinity => P
  | Affine x1 y1, Affine x2 y2 =>
      let p := field g in
      if (x1 - x2) mod p =? 0 then
        if (y1 - y2) mod p =? 0 then ec_dbl g P else Infinity
      else
        let l := ((y2 - y1) * field_inv (x2 - x1) p) mod p in
        let x3 := (l * l - x1 - x2) mod p in
        Affine x3 ((l * (x1 - x3) - y1) mod p)
  end.

(** [ec_GFp_simple_invert]: [Y := p - Y] unless [Y] is zero. *)
Definition ec_invert (g : EC_GROUP) (P : ec_coords) : ec_coords :=
  match P with
  | Infinity => Infinity
  | Affine x y => if y =? 0 then Affine x y else Affine x (field g - y)
  end.

Fixpoint ec_mul_pos (g : EC_GROUP) (n : positive) (P : ec_coords) : ec_coords :=
  match n with
  | xH => P
  | xO n' => ec_dbl g (ec_mul_pos g n' P)
  | xI n' => ec_add g (ec_dbl g (ec_mul_pos g n' P)) P
  end.

Definition ec_mul (g : EC_GROUP) (m : Z) (P : ec_coords) : ec_coords :=
  match m with
  | Z0 => Infinity
  | Zpos n => ec_mul_pos g n P
  | Zneg n => ec_invert g (ec_mul_pos g n P)
  end.

(** [ec_GFp_simple_cmp]: 0 when equal, 1 when not. *)
Definition ec_cmp (P Q : ec_coords) : Z :=
  match P, Q with
  | Infinity, Infinity => 0
  | Infinity, _ | _, Infinity => 1
  | Affine x1 y1, Affine x2 y2 => if (x1 =? x2) && (y1 =? y2) then 0 else 1
  end.

(* ------------------------------------------------------------------ *)
(** ** SEC1 octet encoding ([ec_GFp_simple_point2oct] / [oct2point]) *)

Inductive point_conversion_form :=
| POINT_CONVERSION_COMPRESSED
| POINT_CONVERSION_UNCOMPRESSED
| POINT_CONVERSION_HYBRID.

Definition form_octet (form : point_conversion_form) : Z :=
  match form with
  | POINT_CONVERSION_COMPRESSED => 2
  | POINT_CONVERSION_UNCOMPRESSED => 4
  | POINT_CONVERSION_HYBRID => 6
  end.

(** [ec_GFp_simple_point2oct] with an output buffer of [len] octets: the
    returned count (0 on error) and the octets written.  The point at
    infinity is the single octet 0. *)
Definition ec_point2oct (g : EC_GROUP) (P : ec_coords)
    (form : point_conversion_form) (len : Z) : Z * list byte :=
  match P with
  | Infinity => if len <? 1 then (0, []) else (1, [x00])
  | Affine x y =>
      let field_len := BN_num_bytes (field g) in
      let ret := match form with
                 | POINT_CONVERSION_COMPRESSED => 1 + field_len
                 | _ => 1 + 2 * field_len
                 end in
      if len <? ret then (0, [])
      else
        let prefix := match form with
                      | POINT_CONVERSION_UNCOMPRESSED => form_octet form
                      | _ => if Z.odd y then form_octet form + 1 else form_octet form
                      end in
        let xs := BN_bn2binpad x (Z.to_nat field_len) in
        let ys := match form with
                  | POINT_CONVERSION_COMPRESSED => []
                  | _ => BN_bn2binpad y (Z.to_nat field_len)
                  end in
        (ret, octet_of_Z prefix :: xs ++ ys)
  end.

(** [BN_mod_sqrt]: a square root of [c] modulo [p], if any (the least one;
    the caller only relies on its being a root in [0, p)). *)
Fixpoint sqrt_from (c p y : Z) (n : nat) : option Z :=
  match n with
  | O => None
  | S n' => if (y * y - c) mod p =? 0 then Some y else sqrt_from c p (y + 1) n'
  end.

Definition BN_mod_sqrt (c p : Z) : option Z := sqrt_from c p 0 (Z.to_nat p).

(** [EC_POINT_set_affine_coordinates]: reduce, then refuse a point that is
    not on the curve. *)
Definition ec_set_affine_coordinates (g : EC_GROUP) (x y : Z) : option ec_coords :=
  let P := Affine (x mod field g) (y mod field g) in
  if ec_is_on_curve g P then Some P else None.

(** [ec_GFp_simple_set_compressed_coordinates]. *)
Definition ec_set_compressed_coordinates (g : EC_GROUP) (x y_bit : Z)
    : option ec_coords :=
  let p := field g in
  let rhs := (x * x * x + coef_a g * x + coef_b g) mod p in
  match BN_mod_sqrt rhs p with
  | None => None
  | Some y =>
      if y_bit =? Z.b2z (Z.odd y) then ec_set_affine_coordinates g x y
      else if y =? 0 then None
      else ec_set_affine_coordinates g x (p - y)
  end.

(** [ec_GFp_simple_oct2point]: decode [len] octets of [buf]. *)
Definition ec_oct2point (g : EC_GROUP) (buf : list byte) (len : Z)
    : option ec_coords :=
  let p := field g in
  match buf with
  | [] => None
  | b0 :: rest =>
      let y_bit := Z.land (Z_of_octet b0) 1 in
      let form := Z.land (Z_of_octet b0) (Z.lnot 1) in
      if negb ((form =? 0) || (form =? 2) || (form =? 4) || (form =? 6)) then None
      else if ((form =? 0) || (form =? 4)) && (y_bit =? 1) then None
      else if form =? 0 then (if len =? 1 then Some Infinity else None)
      else
        let field_len := BN_num_bytes p in
        let enc_len := if form =? 2 then 1 + field_len else 1 + 2 * field_len in
        if negb (len =? enc_len) then None
        else
          let x := BN_bin2bn (firstn (Z.to_nat field_len) rest) in
          if p <=? x then None
          else
            let P :=
              if form =? 2 then ec_set_compressed_coordinates g x y_bit
              else
                let y := BN_bin2bn (firstn (Z.to_nat field_len)
                                      (skipn (Z.to_nat field_len) rest)) in
                if p <=? y then None
                else if (form =? 6) && negb (y_bit =? Z.b2z (Z.odd y)) then None
                else ec_set_affine_coordinates g x y in
            (* "test required by X9.62" *)
            match P with
            | Some Q => if ec_is_on_curve g Q then Some Q else None
            | None => None
            end
  end.

(* ------------------------------------------------------------------ *)
(** ** Native handles, exceptions and the program monad *)

(** An [EC_POINT *]: an address in the native heap. *)
Definition handle := positive.

(** [umbral.curve.Curve]: a named curve with its native group, the order of
    its generator, the native generator point and the byte size of a field
    element. *)
Record Curve := mk_Curve {
  curve_nid : Z;
  ec_group : EC_GROUP;
  order : Z;
  generator : handle;
  field_order_size_in_bytes : Z
}.

(** [umbral.point.Point]: a native point and the curve it is tagged with. *)
Record Point := mk_Point {
  ec_point : handle;
  curve : Curve
}.

(** The process state: the native heap (live [EC_POINT]s and the next free
    address) and the process-wide default curve of [umbral.config]. *)
Record heap := mk_heap {
  cells : gmap positive EC_POINT;
  next_handle : positive;
  config_curve : option Curve
}.

(** Python exceptions the module can raise.  [InternalError] is what
    [backend.openssl_assert] raises; [UmbralConfigurationError] comes from
    [umbral.config]; [DecodingError] is the category the spec names for
    malformed input to [from_bytes]. *)
Inductive exn :=
| InternalError
| UmbralConfigurationError
| DecodingError.

Inductive result (A : Type) :=
| Ok (a : A)
| Error (e : exn).
Arguments Ok {A} a.
Arguments Error {A} e.

(** A Python call: from a heap, a value or an exception, and the new heap. *)
Definition M (A : Type) : Type := heap -> result A * heap.

Definition ret {A} (a : A) : M A := fun h => (Ok a, h).

Definition raise {A} (e : exn) : M A := fun h => (Error e, h).

Definition bind {A B} (m : M A) (k : A -> M B) : M B :=
  fun h =>
    match m h with
    | (Ok a, h') => k a h'
    | (Error e, h') => (Error e, h')
    end.

Notation "'let*' x ':=' m 'in' k" := (bind m (fun x => k))
  (at level 200, x name, m at level 100, k at level 200).

(** [backend.openssl_assert(ok)]. *)
Definition openssl_assert (ok : bool) : M unit :=
  if ok then ret tt else raise InternalError.

Definition alloc (v : EC_POINT) : M handle :=
  fun h => let a := next_handle h in
           (Ok a, mk_heap (<[a := v]> (cells h)) (Pos.succ a) (config_curve h)).

Definition deref (a : handle) : M (option EC_POINT) :=
  fun h => (Ok (cells h !! a), h).

Definition store (a : handle) (v : EC_POINT) : M unit :=
  fun h => (Ok tt, mk_heap (<[a := v]> (cells h)) (next_handle h) (config_curve h)).

(* ------------------------------------------------------------------ *)
(** ** The [EC_POINT_*] functions of OpenSSL's API

    Each returns OpenSSL's status code.  A handle that is not live (never
    happens for points built by this module) is reported as a failure. *)

(** [ec_point_is_compat]: the point was made for this group. *)
Definition ec_point_is_compat (pt : EC_POINT) (g : EC_GROUP) : bool :=
  (curve_name g =? 0) || (point_curve_name pt =? 0)
  || (curve_name g =? point_curve_name pt).

(** [EC_POINT_new(group)]: a fresh point, at infinity. *)
Definition EC_POINT_new (g : EC_GROUP) : M handle :=
  alloc (mk_EC_POINT (curve_name g) Infinity).

(** [EC_POINT_mul(group, r, NULL, q, m, ctx)]: [r := m * q]. *)
Definition EC_POINT_mul (g : EC_GROUP) (r q : handle) (m : Z) : M Z :=
  let* or := deref r in
  let* oq := deref q in
  match or, oq with
  | Some rp, Some qp =>
      if ec_point_is_compat rp g && ec_point_is_compat qp g then
        let* _ := store r (mk_EC_POINT (point_curve_name rp)
                                       (ec_mul g m (coords qp))) in
        ret 1
      else ret 0
  | _, _ => ret 0
  end.

(** [EC_POINT_add(group, r, a, b, ctx)]: [r := a + b]. *)
Definition EC_POINT_add (g : EC_GROUP) (r a b : handle) : M Z :=
  let* or := deref r in
  let* oa := deref a in
  let* ob := deref b in
  match or, oa, ob with
  | Some rp, Some ap, Some bp =>
      if ec_point_is_compat rp g && ec_point_is_compat ap g
         && ec_point_is_compat bp g then
        let* _ := store r (mk_EC_POINT (point_curve_name rp)
                                       (ec_add g (coords ap) (coords bp))) in
        ret 1
      else ret 0
  | _, _, _ => ret 0
  end.

(** [EC_POINT_dup(src, group)]: [EC_POINT_new] then [EC_POINT_copy], which
    refuses a source point of another curve; [None] is [NULL]. *)
Definition EC_POINT_dup (src : handle) (g : EC_GROUP) : M (option handle) :=
  let* os := deref src in
  match os with
  | Some sp =>
      if ec_point_is_compat sp g then
        let* t := alloc (mk_EC_POINT (curve_name g) (coords sp)) in
        ret (Some t)
      else ret None
  | None => ret None
  end.

(** [EC_POINT_invert(group, a, ctx)]: [a := -a], in place. *)
Definition EC_POINT_invert (g : EC_GROUP) (a : handle) : M Z :=
  let* oa := deref a in
  match oa with
  | Some ap =>
      if ec_point_is_compat ap g then
        let* _ := store a (mk_EC_POINT (point_curve_name ap)
                                       (ec_invert g (coords ap))) in
        ret 1
      else ret 0
  | None => ret 0
  end.

(** [EC_POINT_cmp(group, a, b, ctx)]: 0 equal, 1 not equal, -1 error. *)
Definition EC_POINT_cmp (g : EC_GROUP) (a b : handle) : M Z :=
  let* oa := deref a in
  let* ob := deref b in
  match oa, ob with
  | Some ap, Some bp =>
      if ec_point_is_compat ap g && ec_point_is_compat bp g then
        ret (ec_cmp (coords ap) (coords bp))
      else ret (-1)
  | _, _ => ret (-1)
  end.

(** [EC_POINT_point2oct(group, a, form, buf, len, ctx)]: the count written
    (0 on error) and the octets. *)
Definition EC_POINT_point2oct (g : EC_GROUP) (a : handle)
    (form : point_conversion_form) (len : Z) : M (Z * list byte) :=
  let* oa := deref a in
  match oa with
  | Some ap =>
      if ec_point_is_compat ap g then ret (ec_point2oct g (coords ap) form len)
      else ret (0, [])
  | None => ret (0, [])
  end.

(** [EC_POINT_oct2point(group, r, buf, len, ctx)]. *)
Definition EC_POINT_oct2point (g : EC_GROUP) (r : handle)
    (buf : list byte) (len : Z) : M Z :=
  let* or := deref r in
  match or with
  | Some rp =>
      if ec_point_is_compat rp g then
        match ec_oct2point g buf len with
        | Some P => let* _ := store r (mk_EC_POINT (point_curve_name rp) P) in ret 1
        | None => ret 0
        end
      else ret 0
  | None => ret 0
  end.

(** [EC_POINT_set_affine_coordinates_GFp(group, r, x, y, ctx)]. *)
Definition EC_POINT_set_affine_coordinates_GFp (g : EC_GROUP) (r : handle)
    (x y : Z) : M Z :=
  let* or := deref r in
  match or with
  | Some rp =>
      if ec_point_is_compat rp g then
        match ec_set_affine_coordinates g x y with
        | Some P => let* _ := store r (mk_EC_POINT (point_curve_name rp) P) in ret 1
        | None => ret 0
        end
      else ret 0
  | None => ret 0
  end.

(** [EC_POINT_get_affine_coordinates_GFp(group, p, x, y, ctx)]: the status
    and the affine coordinates; the point at infinity has none. *)
Definition EC_POINT_get_affine_coordinates_GFp (g : EC_GROUP) (a : handle)
    : M (Z * (Z * Z)) :=
  let* oa := deref a in
  match oa with
  | Some ap =>
      if ec_point_is_compat ap g then
        match coords ap with
        | Infinity => ret (0, (0, 0))
        | Affine x y => ret (1, (x, y))
        end
      else ret (0, (0, 0))
  | None => ret (0, (0, 0))
  end.

(* ------------------------------------------------------------------ *)
(** ** Collaborators of [point.py] in the rest of the package *)

(** Modelled from the spec: [umbral.config.default_curve] (not in src/):
    returns the process-wide default curve; reading it before it has been
    set is a configuration error. *)
Definition default_curve : M Curve :=
  fun h => match config_curve h with
           | Some c => (Ok c, h)
           | None => (Error UmbralConfigurationError, h)
           end.

(** Modelled from the spec: [umbral.openssl._get_new_EC_POINT(curve)] (not
    in src/): a new native group element of the curve. *)
Definition _get_new_EC_POINT (curve : Curve) : M handle :=
  EC_POINT_new (ec_group curve).

(** Modelled from the spec: [umbral.openssl._get_EC_POINT_via_affine] (not
    in src/): a new native point set from affine coordinates by the
    provider, whose failure is an [openssl_assert]. *)
Definition _get_EC_POINT_via_affine (affine_x affine_y : Z) (curve : Curve)
    : M handle :=
  let* ec_point := _get_new_EC_POINT curve in
  let* res := EC_POINT_set_affine_coordinates_GFp (ec_group curve) ec_point
                affine_x affine_y in
  let* _ := openssl_assert (res =? 1) in
  ret ec_point.

(** Modelled from the spec: [umbral.openssl._get_affine_coords_via_EC_POINT]
    (not in src/): the affine coordinates the provider reports, whose
    failure is an [openssl_assert]. *)
Definition _get_affine_coords_via_EC_POINT (ec_point : handle) (curve : Curve)
    : M (Z * Z) :=
  let* out := EC_POINT_get_affine_coordinates_GFp (ec_group curve) ec_point in
  let '(res, affine) := out in
  let* _ := openssl_assert (res =? 1) in
  ret affine.

(** Python's truth value of an integer. *)
Definition py_bool (z : Z) : bool := negb (z =? 0).

(** [curve = curve if curve is not None else default_curve()] *)
Definition curve_or_default (curve : option Curve) : M Curve :=
  match curve with
  | Some c => ret c
  | None => default_curve
  end.

(* ------------------------------------------------------------------ *)
(** ** The methods of [Point] *)

Module Point.

Definition expected_bytes_length (curve : option Curve) (is_compressed : bool)
    : M Z :=
  let* curve := curve_or_default curve in
  let coord_size := field_order_size_in_bytes curve in
  if is_compressed then ret (1 + coord_size) else ret (1 + 2 * coord_size).

(** [rand_bn] is the scalar drawn by [CurveBN.gen_rand(curve)]. *)
Definition gen_rand (curve : option Curve) (rand_bn : Z) : M Point :=
  let* curve := curve_or_default curve in
  let* rand_point := _get_new_EC_POINT curve in
  let* res := EC_POINT_mul (ec_group curve) rand_point (generator curve) rand_bn in
  let* _ := openssl_assert (res =? 1) in
  ret (mk_Point rand_point curve).

Definition from_affine (coords : Z * Z) (curve : option Curve) : M Point :=
  let* curve := curve_or_default curve in
  let '(affine_x, affine_y) := coords in
  let* ec_point := _get_EC_POINT_via_affine affine_x affine_y curve in
  ret (mk_Point ec_point curve).

(** [backend._bn_to_int] is the identity on the model's integers. *)
Definition to_affine (self : Point) : M (Z * Z) :=
  let* affine := _get_affine_coords_via_EC_POINT (ec_point self) (curve self) in
  let '(affine_x, affine_y) := affine in
  ret (affine_x, affine_y).

Definition from_bytes (data : list byte) (curve : option Curve) : M Point :=
  let* curve := curve_or_default curve in
  let* point := _get_new_EC_POINT curve in
  let* res := EC_POINT_oct2point (ec_group curve) point data
                (Z.of_nat (length data)) in
  let* _ := openssl_assert (res =? 1) in
  ret (mk_Point point curve).

Definition to_bytes (self : Point) (is_compressed : bool) : M (list byte) :=
  let* length := expected_bytes_length (Some (curve self)) is_compressed in
  let point_conversion_form :=
    if is_compressed then POINT_CONVERSION_COMPRESSED
    else POINT_CONVERSION_UNCOMPRESSED in
  let* out := EC_POINT_point2oct (ec_group (curve self)) (ec_point self)
                point_conversion_form length in
  let '(bin_len, bin_ptr) := out in
  let* _ := openssl_assert (negb (bin_len =? 0)) in
  ret (firstn (Z.to_nat bin_len) bin_ptr).

Definition get_generator_from_curve (curve : option Curve) : M Point :=
  let* curve := curve_or_default curve in
  ret (mk_Point (generator curve) curve).

Definition __eq__ (self other : Point) : M bool :=
  let* is_equal := EC_POINT_cmp (ec_group (curve self)) (ec_point self)
                     (ec_point other) in
  let* _ := openssl_assert (negb (is_equal =? -1)) in
  (* 1 is not-equal, 0 is equal, -1 is error *)
  ret (negb (py_bool is_equal)).

(** [other] is the [CurveBN]'s bignum. *)
Definition __mul__ (self : Point) (other : Z) : M Point :=
  let* prod := _get_new_EC_POINT (curve self) in
  let* res := EC_POINT_mul (ec_group (curve self)) prod (ec_point self) other in
  let* _ := openssl_assert (res =? 1) in
  ret (mk_Point prod (curve self)).

Definition __rmul__ := __mul__.

Definition __add__ (self other : Point) : M Point :=
  let* op_sum := _get_new_EC_POINT (curve self) in
  let* res := EC_POINT_add (ec_group (curve self)) op_sum (ec_point self)
                (ec_point other) in
  let* _ := openssl_assert (res =? 1) in
  ret (mk_Point op_sum (curve self)).

Definition __neg__ (self : Point) : M Point :=
  let* inv := EC_POINT_dup (ec_point self) (ec_group (curve self)) in
  match inv with
  | None => raise InternalError (* openssl_assert(inv != NULL) *)
  | Some inv =>
      let* res := EC_POINT_invert (ec_group (curve self)) inv in
      let* _ := openssl_assert (res =? 1) in
      ret (mk_Point inv (curve self))
  end.

Definition __sub__ (self other : Point) : M Point :=
  let* neg_other := __neg__ other in
  __add__ self neg_other.

Definition __bytes__ (self : Point) : M (list byte) := to_bytes self true.

End Point.

(* ------------------------------------------------------------------ *)
(** ** Predicates on states and curves *)

(** Every live handle lies below the next free address. *)
Definition heap_wf (h : heap) : Prop :=
  forall a v, cells h !! a = Some v -> (a < next_handle h)%positive.

(** A point value OpenSSL keeps for a group: infinity, or reduced affine
    coordinates on the curve. *)
Definition ec_valid (g : EC_GROUP) (P : ec_coords) : bool :=
  match P with
  | Infinity => true
  | Affine x y =>
      (0 <=? x) && (x <? field g) && (0 <=? y) && (y <? field g)
      && ec_is_on_curve g P
  end.

(** The native point behind a handle, made for group [g]. *)
Definition live_in (g : EC_GROUP) (a : handle) (h : heap) (P : ec_coords) : Prop :=
  exists pt, cells h !! a = Some pt /\ ec_point_is_compat pt g = true
             /\ coords pt = P.

(** The native point of the curve's generator. *)
Definition generator_coords (C : Curve) (h : heap) : option ec_coords :=
  match cells h !! generator C with
  | Some gp => if ec_point_is_compat gp (ec_group C) then Some (coords gp) else None
  | None => None
  end.

(** [a == b] evaluated after [make_a] and [make_b] have run, in this order. *)
Definition compare_after (make_a make_b : M Point) : M bool :=
  let* a := make_a in
  let* b := make_b in
  Point.__eq__ a b.

(** [from_bytes(to_bytes(P, compressed), curve) == P] for the point [P] that
    [make] returns. *)
Definition roundtrip (make : M Point) (curve : Curve) (compressed : bool) : M bool :=
  let* P := make in
  let* data := Point.to_bytes P compressed in
  let* Q := Point.from_bytes data (Some curve) in
  Point.__eq__ Q P.

(** The state with another default curve configured. *)
Definition with_config (h : heap) (c : option Curve) : heap :=
  mk_heap (cells h) (next_handle h) c.

(** A computation that never reads the configured default curve and leaves
    it as it is. *)
Definition config_free {A} (m : M A) : Prop :=
  forall h c, m (with_config h c) = (fst (m h), with_config (snd (m h)) c).

(** An operation with an optional [curve] argument uses the given curve
    whatever the configuration, and otherwise the configured default, whose
    absence is an [UmbralConfigurationError]. *)
Definition uses_curve_or_default {A} (op : option Curve -> M A) : Prop :=
  (forall C h c1 c2,
     fst (op (Some C) (with_config h c1)) = fst (op (Some C) (with_config h c2)))
  /\ (forall C h, op None (with_config h (Some C)) = op (Some C) (with_config h (Some C)))
  /\ (forall h, fst (op None (with_config h None)) = Error UmbralConfigurationError).

(** Every [Point] the computation returns is tagged with the curve [C]. *)
Definition returns_on_curve (m : M Point) (C : Curve) : Prop :=
  forall h R h', m h = (Ok R, h') -> curve R = C.

(** What a call may do to the native points: keep the heap well formed, only
    add addresses, keep the configuration, and leave every address below [b]
    as it was in [h0]. *)
Definition frame_ok (b : positive) (h0 h : heap) : Prop :=
  heap_wf h /\ (b <= next_handle h)%positive /\ config_curve h = config_curve h0
  /\ (forall a, (a < b)%positive -> cells h !! a = cells h0 !! a).

(** [m] keeps [frame_ok b h0]. *)
Definition keeps_frame {A} (b : positive) (h0 : heap) (m : M A) : Prop :=
  forall h, frame_ok b h0 h -> frame_ok b h0 (snd (m h)).

(** [m] run on a well-formed heap keeps every native point that existed
    before the call, the configuration and the well-formedness of the heap. *)
Definition preserves_points {A} (m : M A) : Prop :=
  forall h, heap_wf h -> frame_ok (next_handle h) h (snd (m h)).

(* ------------------------------------------------------------------ *)
(** ** Curves *)

(** secp256k1 (NID 714). *)
Definition secp256k1_group : EC_GROUP :=
  mk_EC_GROUP 714
    0xFFFFFFFFFFFFFFFFFFFFFFFFFFFFFFFFFFFFFFFFFFFFFFFFFFFFFFFEFFFFFC2F 0 7.

Definition secp256k1_G : ec_coords :=
  Affine 0x79BE667EF9DCBBAC55A06295CE870B07029BFCDB2DCE28D959F2815B16F81798
         0x483ADA7726A3C4655DA4FBFC0E1108A8FD17B448A68554199C47D08FFB10D4B8.

Definition SECP256K1 : Curve :=
  mk_Curve 714 secp256k1_group
    0xFFFFFFFFFFFFFFFFFFFFFFFFFFFFFFFEBAAEDCE6AF48A03BBFD25E8CD0364141
    1%positive 32.

(** A process that has loaded secp256k1: its generator at address 1. *)
Definition secp256k1_heap (cfg : option Curve) : heap :=
  mk_heap {[ 1%positive := mk_EC_POINT 714 secp256k1_G ]} 2%positive cfg.

(** A small curve of the same shape, [y^2 = x^3 + 7] over GF(17), whose
    generator (1, 5) has order 9. *)
Definition toy_group : EC_GROUP := mk_EC_GROUP 1 17 0 7.

Definition TOY : Curve := mk_Curve 1 toy_group 9 1%positive 1.

Definition toy_heap : heap :=
  mk_heap {[ 1%positive := mk_EC_POINT 1 (Affine 1 5) ]} 2%positive None.

(** Three points of the small curve at addresses 1, 2 and 3. *)
Definition toy3_heap : heap :=
  mk_heap (<[3%positive := mk_EC_POINT 1 (Affine 3 0)]>
             (<[2%positive := mk_EC_POINT 1 (Affine 2 7)]>
                {[ 1%positive := mk_EC_POINT 1 (Affine 1 5) ]}))
          4%positive None.

(** secp256k1's generator at address 1 and a point of the small curve at
    address 2. *)
Definition mixed_heap : heap :=
  mk_heap (<[2%positive := mk_EC_POINT 1 (Affine 1 5)]>
             {[ 1%positive := mk_EC_POINT 714 secp256k1_G ]})
          3%positive None.

(** All point values of a group over a small field. *)
Definition all_points (g : EC_GROUP) : list ec_coords :=
  let xs := map Z.of_nat (seq 0 (Z.to_nat (field g))) in
  Infinity :: flat_map (fun x => flat_map (fun y =>
    if ec_valid g (Affine x y) then [Affine x y] else []) xs) xs.

(* ================================================================== *)
(** * Properties *)

(* ------------------------------------------------------------------ *)
(** ** Octets and big-endian integers *)

Lemma Z_of_octet_of_Z (z : Z) : Z_of_octet (octet_of_Z z) = z mod 256.
Proof.
  unfold Z_of_octet, octet_of_Z.
  pose proof (Z.mod_pos_bound z 256 ltac:(lia)) as Hb.
  destruct (of_N (Z.to_N (z mod 256))) as [b|] eqn:E.
  - apply to_of_N in E. rewrite E. lia.
  - apply of_N_None_iff in E. lia.
Qed.

Lemma Z_of_octet_bound (b : byte) : 0 <= Z_of_octet b < 256.
Proof. unfold Z_of_octet. pose proof (to_N_bounded b). lia. Qed.

Lemma length_BN_bn2binpad (x : Z) (k : nat) : length (BN_bn2binpad x k) = k.
Proof.
  revert x. induction k as [|k IH]; intros x; [reflexivity|].
  cbn [BN_bn2binpad]. rewrite length_app, IH. cbn. lia.
Qed.

Lemma BN_bin2bn_snoc (s : list byte) (b : byte) :
  BN_bin2bn (s ++ [b]) = BN_bin2bn s * 256 + Z_of_octet b.
Proof. unfold BN_bin2bn. rewrite fold_left_app. reflexivity. Qed.

Lemma BN_bin2bn_bn2binpad (x : Z) (k : nat) :
  BN_bin2bn (BN_bn2binpad x k) = x mod 256 ^ Z.of_nat k.
Proof.
  revert x. induction k as [|k IH]; intros x.
  - cbn. rewrite Z.mod_1_r. reflexivity.
  - cbn [BN_bn2binpad]. rewrite BN_bin2bn_snoc, IH, Z_of_octet_of_Z.
    rewrite Nat2Z.inj_succ, Z.pow_succ_r by lia.
    assert (HB : 0 < 256 ^ Z.of_nat k) by (apply Z.pow_pos_nonneg; lia).
    rewrite !Z.mod_eq by lia. rewrite <- Z.div_div by lia. ring.
Qed.

Lemma BN_num_bytes_bound (p : Z) :
  0 < p -> p <= 256 ^ BN_num_bytes p.
Proof.
  intros Hp. unfold BN_num_bytes.
  destruct (p <=? 0) eqn:E; [lia|].
  pose proof (Z.log2_spec p Hp) as [_ Hlt].
  pose proof (Z.log2_nonneg p) as Hl.
  set (L := Z.log2 p) in *.
  assert (Hq : L + 1 <= 8 * ((L + 1 + 7) / 8)).
  { pose proof (Z.div_mod (L + 1 + 7) 8 ltac:(lia)).
    pose proof (Z.mod_pos_bound (L + 1 + 7) 8 ltac:(lia)). lia. }
  replace 256 with (2 ^ 8) by reflexivity.
  rewrite <- Z.pow_mul_r by (try apply Z.div_pos; lia).
  apply Z.lt_le_incl. eapply Z.lt_le_trans; [exact Hlt|].
  apply Z.pow_le_mono_r; lia.
Qed.

Lemma firstn_app_length {A} (l1 l2 : list A) (n : nat) :
  length l1 = n -> firstn n (l1 ++ l2) = l1.
Proof.
  intros <-. induction l1 as [|a l1 IH]; cbn; [apply firstn_O|]. by rewrite IH.
Qed.

Lemma skipn_app_length {A} (l1 l2 : list A) (n : nat) :
  length l1 = n -> skipn n (l1 ++ l2) = l2.
Proof. intros <-. induction l1 as [|a l1 IH]; cbn; auto. Qed.

(* ------------------------------------------------------------------ *)
(** ** Square roots modulo a prime *)

Lemma sqrt_from_finds (c p s : Z) (n : nat) (y0 : Z) :
  s <= y0 < s + Z.of_nat n -> (y0 * y0 - c) mod p = 0 ->
  exists y, sqrt_from c p s n = Some y /\ s <= y < s + Z.of_nat n
            /\ (y * y - c) mod p = 0.
Proof.
  revert s. induction n as [|n IH]; intros s Hr Hroot; cbn [sqrt_from]; [exfalso; lia|].
  destruct (Z.eqb_spec ((s * s - c) mod p) 0) as [E|E].
  - exists s. split; [reflexivity|lia].
  - assert (s <> y0) by (intros ->; contradiction).
    destruct (IH (s + 1)) as (y & Hy & Hb & Hr'); [lia|exact Hroot|].
    exists y. split; [exact Hy|lia].
Qed.

Lemma BN_mod_sqrt_finds (c p y0 : Z) :
  0 <= y0 < p -> (y0 * y0 - c) mod p = 0 ->
  exists y, BN_mod_sqrt c p = Some y /\ 0 <= y < p /\ (y * y - c) mod p = 0.
Proof.
  intros Hr Hroot. unfold BN_mod_sqrt.
  destruct (sqrt_from_finds c p 0 (Z.to_nat p) y0) as (y & Hy & Hb & Hr');
    [lia|exact Hroot|].
  exists y. split; [exact Hy|lia].
Qed.

Lemma prime_odd (p : Z) : Z.prime p -> 2 < p -> Z.odd p = true.
Proof.
  intros Hp H2. destruct (Z.odd p) eqn:E; [reflexivity|exfalso].
  assert (Hd : (2 | p)).
  { exists (Z.div2 p). pose proof (Z.div2_odd p) as Hd. rewrite E in Hd. cbn in Hd. lia. }
  destruct (Z.divide_prime_r 2 p Hp Hd) as [|[|[|]]]; lia.
Qed.

(** Two square roots of one value modulo a prime are equal or opposite. *)
Lemma square_roots_mod_prime (p c y y0 : Z) :
  Z.prime p -> 0 <= y < p -> 0 <= y0 < p ->
  (y * y - c) mod p = 0 -> (y0 * y0 - c) mod p = 0 ->
  y0 = y \/ y0 = p - y.
Proof.
  intros Hp Hy Hy0 H1 H2.
  pose proof (Z.prime_ge_2 p Hp) as Hp2.
  apply Z.mod_divide in H1; [|lia]. apply Z.mod_divide in H2; [|lia].
  assert (Hd : (p | (y - y0) * (y + y0))).
  { replace ((y - y0) * (y + y0)) with ((y * y - c) - (y0 * y0 - c)) by ring.
    apply Z.divide_sub_r; assumption. }
  destruct (proj1 (Z.divide_prime_mul _ _ p Hp) Hd) as [[k Hk]|[k Hk]].
  - assert (k = 0) by nia. subst k. lia.
  - assert (k = 0 \/ k = 1) as [-> | ->] by nia; lia.
Qed.

Lemma BN_num_bytes_pos (p : Z) : 0 < p -> 1 <= BN_num_bytes p.
Proof.
  intros Hp. unfold BN_num_bytes. destruct (p <=? 0) eqn:E; [lia|].
  pose proof (Z.log2_nonneg p). apply Z.div_le_lower_bound; lia.
Qed.

(** Decompression recovers the point from [x] and the parity of [y]. *)
Lemma ec_set_compressed_coordinates_ok (g : EC_GROUP) (x y : Z) :
  Z.prime (field g) -> 2 < field g -> 0 <= x < field g -> 0 <= y < field g ->
  ec_is_on_curve g (Affine x y) = true ->
  ec_set_compressed_coordinates g x (Z.b2z (Z.odd y)) = Some (Affine x y).
Proof.
  intros Hp H2 Hx Hy Hc. unfold ec_set_compressed_coordinates, ec_set_affine_coordinates.
  assert (Hroot : (y * y - (x * x * x + coef_a g * x + coef_b g) mod field g)
                  mod field g = 0).
  { rewrite Zminus_mod_idemp_r. cbn in Hc. apply Z.eqb_eq in Hc. exact Hc. }
  destruct (BN_mod_sqrt_finds _ _ y Hy Hroot) as (y0 & E & Hy0 & Hr0).
  rewrite E.
  destruct (square_roots_mod_prime _ _ y y0 Hp Hy Hy0 Hroot Hr0) as [-> | ->].
  - rewrite Z.eqb_refl, !Z.mod_small by lia. rewrite Hc. reflexivity.
  - assert (Hy' : 0 < y) by lia.
    rewrite Z.odd_sub, (prime_odd _ Hp H2).
    replace (Z.b2z (Z.odd y) =? Z.b2z (xorb true (Z.odd y))) with false
      by (destruct (Z.odd y); reflexivity).
    replace (field g - y =? 0) with false by (symmetry; apply Z.eqb_neq; lia).
    replace (field g - (field g - y)) with y by ring.
    rewrite !Z.mod_small by lia. rewrite Hc. reflexivity.
Qed.

Lemma octet_prefix_bits (f : Z) (b : bool) :
  f = 2 \/ f = 4 \/ f = 6 ->
  Z_of_octet (octet_of_Z (if b then f + 1 else f)) = f + Z.b2z b
  /\ Z.land (f + Z.b2z b) 1 = Z.b2z b /\ Z.land (f + Z.b2z b) (Z.lnot 1) = f.
Proof. intros [-> | [-> | ->]]; destruct b; repeat split; reflexivity. Qed.

Lemma ec_point2oct_oct2point (g : EC_GROUP) (P : ec_coords) (compressed : bool) :
  Z.prime (field g) -> 2 < field g -> ec_valid g P = true ->
  exists bs : list byte,
    ec_point2oct g P
      (if compressed then POINT_CONVERSION_COMPRESSED
       else POINT_CONVERSION_UNCOMPRESSED)
      (if compressed then 1 + BN_num_bytes (field g)
       else 1 + 2 * BN_num_bytes (field g))
    = (Z.of_nat (length bs), bs)
    /\ ec_oct2point g bs (Z.of_nat (length bs)) = Some P.
Proof.
  intros Hp H2 Hv.
  pose proof (BN_num_bytes_pos (field g) ltac:(lia)) as Hk1.
  pose proof (BN_num_bytes_bound (field g) ltac:(lia)) as Hkb.
  destruct P as [|x y].
  - exists [x00]. cbn [ec_point2oct].
    replace ((if compressed then 1 + BN_num_bytes (field g)
              else 1 + 2 * BN_num_bytes (field g)) <? 1) with false
      by (symmetry; apply Z.ltb_ge; destruct compressed; lia).
    split; reflexivity.
  - cbn [ec_valid] in Hv.
    apply andb_prop in Hv as [Hv Hc]. apply andb_prop in Hv as [Hv Hy2].
    apply andb_prop in Hv as [Hv Hy1]. apply andb_prop in Hv as [Hx1 Hx2].
    apply Z.leb_le in Hx1, Hy1. apply Z.ltb_lt in Hx2, Hy2.
    set (k := BN_num_bytes (field g)) in *.
    assert (Hxk : x mod 256 ^ Z.of_nat (Z.to_nat k) = x)
      by (rewrite Z2Nat.id by lia; apply Z.mod_small; lia).
    assert (Hyk : y mod 256 ^ Z.of_nat (Z.to_nat k) = y)
      by (rewrite Z2Nat.id by lia; apply Z.mod_small; lia).
    assert (Hlx := length_BN_bn2binpad x (Z.to_nat k)).
    assert (Hly := length_BN_bn2binpad y (Z.to_nat k)).
    destruct compressed; cbn [ec_point2oct]; fold k; rewrite Z.ltb_irrefl.
    + destruct (octet_prefix_bits (form_octet POINT_CONVERSION_COMPRESSED) (Z.odd y)
                  ltac:(cbn; lia)) as (Ho & Hb1 & Hb2).
      eexists. split.
      { f_equal. cbn [length]. rewrite length_app, Hlx. cbn [length]. lia. }
      assert (Hlen : Z.of_nat (length (octet_of_Z (if Z.odd y
                then form_octet POINT_CONVERSION_COMPRESSED + 1
                else form_octet POINT_CONVERSION_COMPRESSED)
                :: BN_bn2binpad x (Z.to_nat k) ++ [])) = 1 + k).
      { cbn [length]. rewrite length_app, Hlx. cbn [length]. lia. }
      rewrite Hlen. unfold ec_oct2point. fold k.
      rewrite Ho, Hb1, Hb2, firstn_app_length, BN_bin2bn_bn2binpad, Hxk by exact Hlx.
      cbn [form_octet].
      replace (field g <=? x) with false by (symmetry; apply Z.leb_gt; lia).
      cbn -[ec_set_compressed_coordinates ec_is_on_curve].
      rewrite Z.eqb_refl. cbn -[ec_set_compressed_coordinates ec_is_on_curve].
      rewrite ec_set_compressed_coordinates_ok by (auto; lia).
      rewrite Hc. reflexivity.
    + eexists. split.
      { f_equal. cbn [length]. rewrite length_app, Hlx, Hly. lia. }
      assert (Hlen : Z.of_nat (length (octet_of_Z (form_octet POINT_CONVERSION_UNCOMPRESSED)
                :: BN_bn2binpad x (Z.to_nat k) ++ BN_bn2binpad y (Z.to_nat k)))
                = 1 + 2 * k).
      { cbn [length]. rewrite length_app, Hlx, Hly. lia. }
      rewrite Hlen. unfold ec_oct2point. fold k.
      rewrite firstn_app_length, skipn_app_length by exact Hlx.
      rewrite (firstn_all2 (BN_bn2binpad y _)) by lia.
      rewrite !BN_bin2bn_bn2binpad, Hxk, Hyk.
      replace (field g <=? x) with false by (symmetry; apply Z.leb_gt; lia).
      replace (field g <=? y) with false by (symmetry; apply Z.leb_gt; lia).
      cbn -[ec_set_affine_coordinates ec_is_on_curve].
      replace (Z_of_octet (octet_of_Z 4)) with 4 by reflexivity.
      replace (Z.land 4 (Z.lnot 1)) with 4 by reflexivity.
      replace (Z.land 4 1) with 0 by reflexivity.
      cbn -[ec_set_affine_coordinates ec_is_on_curve].
      rewrite Z.eqb_refl. cbn -[ec_set_affine_coordinates ec_is_on_curve].
      unfold ec_set_affine_coordinates. rewrite !Z.mod_small by lia.
      rewrite Hc. cbn -[ec_is_on_curve]. rewrite Hc. reflexivity.
Qed.

(* ------------------------------------------------------------------ *)
(** ** The native heap *)

Lemma heap_wf_fresh (h : heap) : heap_wf h -> cells h !! next_handle h = None.
Proof.
  intros Hwf. destruct (cells h !! next_handle h) as [v|] eqn:E; [|reflexivity].
  apply Hwf in E. lia.
Qed.

Lemma heap_wf_live_ne (h : heap) (a : handle) (v : EC_POINT) :
  heap_wf h -> cells h !! a = Some v -> a <> next_handle h.
Proof. intros Hwf E ->. rewrite heap_wf_fresh in E by exact Hwf. discriminate. Qed.

Lemma heap_wf_alloc (h : heap) (v : EC_POINT) :
  heap_wf h ->
  heap_wf (mk_heap (<[next_handle h := v]> (cells h)) (Pos.succ (next_handle h))
             (config_curve h)).
Proof.
  intros Hwf a w. cbn [cells next_handle].
  destruct (decide (a = next_handle h)) as [->|Hne]; [lia|].
  rewrite lookup_insert_ne by congruence. intros E. apply Hwf in E. lia.
Qed.

Lemma heap_wf_store (h : heap) (a : handle) (v w : EC_POINT) :
  heap_wf h -> cells h !! a = Some w ->
  heap_wf (mk_heap (<[a := v]> (cells h)) (next_handle h) (config_curve h)).
Proof.
  intros Hwf Ha b u. cbn [cells next_handle].
  destruct (decide (a = b)) as [->|Hne].
  - intros _. exact (Hwf b w Ha).
  - rewrite lookup_insert_ne by exact Hne. apply Hwf.
Qed.

Lemma ec_point_is_compat_own (g : EC_GROUP) (P : ec_coords) :
  ec_point_is_compat (mk_EC_POINT (curve_name g) P) g = true.
Proof. unfold ec_point_is_compat. cbn. rewrite Z.eqb_refl, !orb_true_r. reflexivity. Qed.

Lemma ec_cmp_refl (P : ec_coords) : ec_cmp P P = 0.
Proof. destruct P; cbn; [reflexivity|]. rewrite !Z.eqb_refl. reflexivity. Qed.

Lemma ec_cmp_eq (P Q : ec_coords) : ec_cmp P Q = 0 <-> P = Q.
Proof.
  split; [|intros ->; apply ec_cmp_refl].
  destruct P, Q; cbn; try discriminate; [reflexivity|].
  destruct (Z.eqb_spec x x0), (Z.eqb_spec y y0); cbn; congruence.
Qed.

(* ------------------------------------------------------------------ *)
(** ** What each method does to the state *)

Ltac run_M :=
  repeat (unfold bind, ret, raise, openssl_assert, deref, store, alloc in *;
          cbn [fst snd cells next_handle config_curve ec_point curve
            point_curve_name coords andb orb negb Z.eqb Pos.eqb] in *).

Lemma to_bytes_run (P : Point) (h : heap) (pt : EC_POINT) (b : bool) :
  cells h !! ec_point P = Some pt ->
  ec_point_is_compat pt (ec_group (curve P)) = true ->
  Point.to_bytes P b h =
    (let '(bin_len, bin_ptr) :=
       ec_point2oct (ec_group (curve P)) (coords pt)
         (if b then POINT_CONVERSION_COMPRESSED else POINT_CONVERSION_UNCOMPRESSED)
         (if b then 1 + field_order_size_in_bytes (curve P)
          else 1 + 2 * field_order_size_in_bytes (curve P)) in
     if bin_len =? 0 then Error InternalError
     else Ok (firstn (Z.to_nat bin_len) bin_ptr), h).
Proof.
  intros Hl Hc.
  unfold Point.to_bytes, Point.expected_bytes_length, curve_or_default,
    EC_POINT_point2oct.
  destruct b; run_M; rewrite Hl, Hc; destruct (ec_point2oct _ _ _ _) as [n bs];
    destruct (n =? 0); reflexivity.
Qed.

Lemma from_bytes_run (C : Curve) (data : list byte) (h : heap) :
  Point.from_bytes data (Some C) h =
    let a := next_handle h in
    let g := ec_group C in
    match ec_oct2point g data (Z.of_nat (length data)) with
    | Some Q => (Ok (mk_Point a C),
                 mk_heap (<[a := mk_EC_POINT (curve_name g) Q]> (cells h))
                         (Pos.succ a) (config_curve h))
    | None => (Error InternalError,
               mk_heap (<[a := mk_EC_POINT (curve_name g) Infinity]> (cells h))
                       (Pos.succ a) (config_curve h))
    end.
Proof.
  unfold Point.from_bytes, curve_or_default, _get_new_EC_POINT, EC_POINT_new,
    EC_POINT_oct2point.
  run_M. rewrite lookup_insert_eq, ec_point_is_compat_own.
  destruct (ec_oct2point _ _ _); run_M; [|reflexivity].
  rewrite insert_insert_eq. reflexivity.
Qed.

Lemma EC_POINT_cmp_state (g : EC_GROUP) (a b : handle) (h : heap) :
  snd (EC_POINT_cmp g a b h) = h.
Proof.
  unfold EC_POINT_cmp. run_M.
  destruct (cells h !! a), (cells h !! b); try reflexivity.
  destruct (_ && _); reflexivity.
Qed.

Lemma EC_POINT_cmp_ok (g : EC_GROUP) (a b : handle) (h : heap) :
  exists c, EC_POINT_cmp g a b h = (Ok c, h).
Proof.
  unfold EC_POINT_cmp. run_M.
  destruct (cells h !! a), (cells h !! b); try (eexists; reflexivity).
  destruct (_ && _); eexists; reflexivity.
Qed.

Lemma eq_run (P Q : Point) (h : heap) (c : Z) :
  EC_POINT_cmp (ec_group (curve P)) (ec_point P) (ec_point Q) h = (Ok c, h) ->
  Point.__eq__ P Q h = (if c =? -1 then Error InternalError else Ok (c =? 0), h).
Proof.
  intros E. unfold Point.__eq__. unfold bind at 1. rewrite E.
  destruct (c =? -1) eqn:E1; run_M; [reflexivity|].
  unfold py_bool. rewrite negb_involutive. reflexivity.
Qed.

Lemma cmp_live (g : EC_GROUP) (a b : handle) (h : heap) (P Q : ec_coords) :
  live_in g a h P -> live_in g b h Q ->
  EC_POINT_cmp g a b h = (Ok (ec_cmp P Q), h).
Proof.
  intros (pa & Ha & Hca & <-) (pb & Hb & Hcb & <-).
  unfold EC_POINT_cmp. run_M. rewrite Ha, Hb, Hca, Hcb. reflexivity.
Qed.

Lemma live_in_insert_ne (g : EC_GROUP) (a b : handle) (h : heap) (P : ec_coords)
    (v : EC_POINT) (n : positive) (cfg : option Curve) :
  a <> b -> live_in g b h P -> live_in g b (mk_heap (<[a := v]> (cells h)) n cfg) P.
Proof.
  intros Hne (pt & Hl & Hc & HP). exists pt. cbn [cells].
  rewrite lookup_insert_ne by exact Hne. auto.
Qed.

Lemma live_in_insert_eq (g : EC_GROUP) (a : handle) (h : heap) (P : ec_coords)
    (n : positive) (cfg : option Curve) :
  live_in g a (mk_heap (<[a := mk_EC_POINT (curve_name g) P]> (cells h)) n cfg) P.
Proof.
  exists (mk_EC_POINT (curve_name g) P). cbn [cells].
  rewrite lookup_insert_eq. split; [reflexivity|].
  split; [apply ec_point_is_compat_own|reflexivity].
Qed.

Lemma generator_live (C : Curve) (h : heap) (G : ec_coords) :
  generator_coords C h = Some G -> live_in (ec_group C) (generator C) h G.
Proof.
  unfold generator_coords. destruct (cells h !! generator C) as [gp|] eqn:E;
    [|discriminate].
  destruct (ec_point_is_compat gp (ec_group C)) eqn:Ec; [|discriminate].
  intros [= <-]. exists gp. auto.
Qed.

Lemma gen_rand_run (C : Curve) (r : Z) (h : heap) (G : ec_coords) :
  heap_wf h -> generator_coords C h = Some G ->
  Point.gen_rand (Some C) r h =
    (Ok (mk_Point (next_handle h) C),
     mk_heap (<[next_handle h := mk_EC_POINT (curve_name (ec_group C))
                                   (ec_mul (ec_group C) r G)]> (cells h))
             (Pos.succ (next_handle h)) (config_curve h)).
Proof.
  intros Hwf HG. apply generator_live in HG as (gp & Hl & Hc & <-).
  assert (Hne : next_handle h <> generator C) by
    (intros E; rewrite <- E, heap_wf_fresh in Hl by exact Hwf; discriminate).
  unfold Point.gen_rand, curve_or_default, _get_new_EC_POINT, EC_POINT_new,
    EC_POINT_mul.
  run_M. rewrite lookup_insert_eq, lookup_insert_ne by exact Hne.
  rewrite Hl, ec_point_is_compat_own, Hc. run_M.
  rewrite insert_insert_eq. reflexivity.
Qed.

(** [to_bytes] then [from_bytes] then [==] on a live point of the curve. *)
Lemma roundtrip_live (C : Curve) (P : Point) (h : heap) (V : ec_coords) (b : bool) :
  curve P = C -> Z.prime (field (ec_group C)) -> 2 < field (ec_group C) ->
  field_order_size_in_bytes C = BN_num_bytes (field (ec_group C)) ->
  heap_wf h -> live_in (ec_group C) (ec_point P) h V ->
  ec_valid (ec_group C) V = true ->
  fst ((let* data := Point.to_bytes P b in
        let* Q := Point.from_bytes data (Some C) in
        Point.__eq__ Q P) h) = Ok true.
Proof.
  intros HC Hp H2 Hk Hwf Hlive Hv. subst C.
  pose proof Hlive as (pt & Hl & Hc & HV).
  unfold bind at 1. rewrite (to_bytes_run P h pt b Hl Hc), Hk, HV.
  destruct (ec_point2oct_oct2point _ V b Hp H2 Hv) as (bs & E1 & E2).
  rewrite E1.
  destruct bs as [|b0 bs']; [discriminate E2|].
  replace (Z.of_nat (length (b0 :: bs')) =? 0) with false
    by (symmetry; apply Z.eqb_neq; cbn [length]; lia).
  rewrite Nat2Z.id, firstn_all.
  cbn iota beta. unfold bind at 1. rewrite from_bytes_run. cbn zeta.
  rewrite E2. cbn iota beta.
  assert (Hne : next_handle h <> ec_point P) by
    (intros E; rewrite <- E, heap_wf_fresh in Hl by exact Hwf; discriminate).
  rewrite (eq_run _ _ _ (ec_cmp V V)).
  - rewrite ec_cmp_refl. reflexivity.
  - apply cmp_live; cbn [ec_point curve].
    + apply live_in_insert_eq.
    + apply live_in_insert_ne; assumption.
Qed.

(* ================================================================== *)
(** * The claims *)

(* ------------------------------------------------------------------ *)
(** ** Serialization round trip *)

Section RoundTrip.

Variables (C : Curve) (h : heap) (G : ec_coords).

(** The curve: a prime field larger than 2, whose byte size is the
    [field_order_size_in_bytes] of the [Curve]. *)
Hypothesis field_prime : Z.prime (field (ec_group C)).
Hypothesis field_odd : 2 < field (ec_group C).
Hypothesis field_size :
  field_order_size_in_bytes C = BN_num_bytes (field (ec_group C)).
(** The process: a well-formed heap holding the curve's generator [G]. *)
Hypothesis heap_ok : heap_wf h.
Hypothesis generator_ok : generator_coords C h = Some G.
(** The group: the multiples [r * G], [0 <= r < order], are points of the
    curve (elliptic-curve arithmetic closes over the curve). *)
Hypothesis order_gt_1 : 1 < order C.
Hypothesis multiples_valid :
  forall r, 0 <= r < order C -> ec_valid (ec_group C) (ec_mul (ec_group C) r G) = true.

(** C1: for the points made by [gen_rand] (with the scalar [r] drawn by
    [CurveBN.gen_rand], in [0, order)) and by [get_generator_from_curve],
    [from_bytes(to_bytes(P, compressed), C) == P] holds, for both values
    of [compressed]. *)
Theorem from_bytes_to_bytes_roundtrip (compressed : bool) :
  (forall r, 0 <= r < order C ->
     fst (roundtrip (Point.gen_rand (Some C) r) C compressed h) = Ok true)
  /\ fst (roundtrip (Point.get_generator_from_curve (Some C)) C compressed h)
     = Ok true.
Proof.
  split.
  - intros r Hr. unfold roundtrip, bind at 1.
    rewrite (gen_rand_run C r h G heap_ok generator_ok).
    apply (roundtrip_live C _ _ (ec_mul (ec_group C) r G)); auto.
    + apply heap_wf_alloc, heap_ok.
    + apply live_in_insert_eq.
  - unfold roundtrip, bind at 1.
    replace (Point.get_generator_from_curve (Some C) h)
      with (Ok (mk_Point (generator C) C), h) by reflexivity.
    apply (roundtrip_live C _ _ G); auto.
    + apply generator_live, generator_ok.
    + apply (multiples_valid 1). lia.
Qed.

End RoundTrip.

(* ------------------------------------------------------------------ *)
(** ** Facts about the small curve *)

Lemma toy_field_prime : Z.prime 17.
Proof.
  split; [lia|]. intros n Hn Hd.
  apply Z.mod_divide in Hd; [|lia].
  assert (Hc : n = 2 \/ n = 3 \/ n = 4 \/ n = 5 \/ n = 6 \/ n = 7 \/ n = 8 \/ n = 9 \/ n = 10 \/ n = 11 \/ n = 12 \/ n = 13 \/ n = 14 \/ n = 15 \/ n = 16) by lia.
  repeat (destruct Hc as [->|Hc]; [discriminate|]). subst n. discriminate.
Qed.

Lemma toy_heap_wf : heap_wf toy_heap.
Proof.
  intros a v. cbn [cells next_handle toy_heap].
  destruct (decide (a = 1%positive)) as [->|Hne]; [lia|].
  rewrite lookup_singleton_ne by congruence. discriminate.
Qed.

Lemma toy_multiples_valid :
  forall r, 0 <= r < order TOY ->
    ec_valid (ec_group TOY) (ec_mul (ec_group TOY) r (Affine 1 5)) = true.
Proof.
  intros r Hr. cbn [order TOY] in Hr.
  assert (Hc : r = 0 \/ r = 1 \/ r = 2 \/ r = 3 \/ r = 4 \/ r = 5 \/ r = 6 \/ r = 7 \/ r = 8) by lia.
  repeat (destruct Hc as [->|Hc]; [vm_compute; reflexivity|]).
  subst r. vm_compute. reflexivity.
Qed.

Lemma from_bytes_to_bytes_roundtrip_witness :
  (forall r, 0 <= r < order TOY ->
     fst (roundtrip (Point.gen_rand (Some TOY) r) TOY true toy_heap) = Ok true)
  /\ fst (roundtrip (Point.get_generator_from_curve (Some TOY)) TOY true toy_heap)
     = Ok true.
Proof.
  apply (from_bytes_to_bytes_roundtrip TOY toy_heap (Affine 1 5)).
  - exact toy_field_prime.
  - cbn. lia.
  - reflexivity.
  - exact toy_heap_wf.
  - reflexivity.
  - cbn. lia.
  - exact toy_multiples_valid.
Defined.

Lemma BN_num_bytes_nonneg (p : Z) : 0 <= BN_num_bytes p.
Proof.
  unfold BN_num_bytes. destruct (p <=? 0); [lia|].
  pose proof (Z.log2_nonneg p). apply Z.div_pos; lia.
Qed.

(* ------------------------------------------------------------------ *)
(** ** Serialized length *)

(** C2 (as amended): [expected_bytes_length] is [1 + k] compressed and
    [1 + 2k] uncompressed; [to_bytes] succeeds on a live point of the curve
    and returns exactly [expected_bytes_length] bytes unless the point is the
    point at infinity, which it serializes as the single byte 0x00. *)
Theorem to_bytes_length (C : Curve) (P : Point) (h : heap) (pt : EC_POINT)
    (compressed : bool) :
  curve P = C ->
  field_order_size_in_bytes C = BN_num_bytes (field (ec_group C)) ->
  cells h !! ec_point P = Some pt ->
  ec_point_is_compat pt (ec_group C) = true ->
  fst (Point.expected_bytes_length (Some C) true h)
    = Ok (1 + field_order_size_in_bytes C)
  /\ fst (Point.expected_bytes_length (Some C) false h)
    = Ok (1 + 2 * field_order_size_in_bytes C)
  /\ exists data,
       fst (Point.to_bytes P compressed h) = Ok data
       /\ (coords pt <> Infinity ->
           fst (Point.expected_bytes_length (Some C) compressed h)
           = Ok (Z.of_nat (length data)))
       /\ (coords pt = Infinity -> data = [x00]).
Proof.
  intros HC Hk Hl Hc. subst C.
  split; [reflexivity|]. split; [reflexivity|].
  rewrite (to_bytes_run P h pt compressed Hl Hc), Hk.
  pose proof (BN_num_bytes_nonneg (field (ec_group (curve P)))) as Hk0.
  set (k := BN_num_bytes (field (ec_group (curve P)))) in *.
  destruct (coords pt) as [|x y] eqn:Ept; cbn [ec_point2oct].
  - replace ((if compressed then 1 + k else 1 + 2 * k) <? 1) with false
      by (symmetry; apply Z.ltb_ge; destruct compressed; lia).
    cbn. exists [x00]. split; [reflexivity|]. split; [congruence|auto].
  - assert (Hlx := length_BN_bn2binpad x (Z.to_nat k)).
    assert (Hly := length_BN_bn2binpad y (Z.to_nat k)).
    destruct compressed; cbn [ec_point2oct]; fold k; rewrite Z.ltb_irrefl;
      (replace (_ =? 0) with false by (symmetry; apply Z.eqb_neq; lia));
      eexists; (split; [reflexivity|]);
      (split; [|discriminate]); intros _;
      unfold Point.expected_bytes_length, curve_or_default; run_M; rewrite Hk;
      f_equal; rewrite firstn_all2; cbn [length]; rewrite ?length_app, Hlx, ?Hly;
      cbn [length]; lia.
Qed.

Lemma secp256k1_field_size :
  field_order_size_in_bytes SECP256K1 = BN_num_bytes (field (ec_group SECP256K1)).
Proof. vm_compute. reflexivity. Qed.

Lemma to_bytes_length_witness :
  fst (Point.expected_bytes_length (Some SECP256K1) true (secp256k1_heap None))
    = Ok (1 + field_order_size_in_bytes SECP256K1)
  /\ fst (Point.expected_bytes_length (Some SECP256K1) false (secp256k1_heap None))
    = Ok (1 + 2 * field_order_size_in_bytes SECP256K1)
  /\ exists data,
       fst (Point.to_bytes (mk_Point 1%positive SECP256K1) true (secp256k1_heap None))
         = Ok data
       /\ (coords (mk_EC_POINT 714 secp256k1_G) <> Infinity ->
           fst (Point.expected_bytes_length (Some SECP256K1) true (secp256k1_heap None))
           = Ok (Z.of_nat (length data)))
       /\ (coords (mk_EC_POINT 714 secp256k1_G) = Infinity -> data = [x00]).
Proof.
  apply (to_bytes_length SECP256K1 (mk_Point 1%positive SECP256K1)
           (secp256k1_heap None) (mk_EC_POINT 714 secp256k1_G) true).
  - reflexivity.
  - exact secp256k1_field_size.
  - reflexivity.
  - reflexivity.
Defined.

(** C2 fails at the point at infinity: on secp256k1, [G - G] serializes to
    one byte, while [expected_bytes_length(curve, True)] is 33. *)
Lemma to_bytes_length_counterexample :
  fst ((let* G := Point.get_generator_from_curve (Some SECP256K1) in
        let* O := Point.__sub__ G G in
        let* data := Point.to_bytes O true in
        let* n := Point.expected_bytes_length (Some SECP256K1) true in
        ret (Z.of_nat (length data), n)) (secp256k1_heap None))
  = Ok (1, 33).
Proof. vm_compute. reflexivity. Qed.

(** C3 fails: [from_bytes] on a truncated buffer (the 33-byte compressed
    generator of secp256k1 without its last byte) raises [InternalError]
    through [openssl_assert], not a [DecodingError]. *)
Lemma from_bytes_error_counterexample :
  let r := fst ((let* G := Point.get_generator_from_curve (Some SECP256K1) in
                 let* data := Point.to_bytes G true in
                 Point.from_bytes (firstn 32 data) (Some SECP256K1))
                  (secp256k1_heap None)) in
  r = Error InternalError /\ r <> Error DecodingError.
Proof. vm_compute. split; [reflexivity|discriminate]. Qed.

Lemma sqrt_from_sound (c p s : Z) (n : nat) (y : Z) :
  sqrt_from c p s n = Some y -> s <= y < s + Z.of_nat n /\ (y * y - c) mod p = 0.
Proof.
  revert s. induction n as [|n IH]; intros s; cbn [sqrt_from]; [discriminate|].
  destruct (Z.eqb_spec ((s * s - c) mod p) 0) as [E|E].
  - intros [= <-]. lia.
  - intros Hs. apply IH in Hs. lia.
Qed.

(** The octets [ec_GFp_simple_oct2point] accepts as a first byte. *)
Lemma oct2point_first_byte (b : byte) :
  negb ((Z.land (Z_of_octet b) (Z.lnot 1) =? 0)
        || (Z.land (Z_of_octet b) (Z.lnot 1) =? 2)
        || (Z.land (Z_of_octet b) (Z.lnot 1) =? 4)
        || (Z.land (Z_of_octet b) (Z.lnot 1) =? 6)) = false ->
  (((Z.land (Z_of_octet b) (Z.lnot 1) =? 0)
    || (Z.land (Z_of_octet b) (Z.lnot 1) =? 4))
   && (Z.land (Z_of_octet b) 1 =? 1)) = false ->
  In (Z_of_octet b) [0; 2; 3; 4; 6; 7].
Proof.
  destruct b; intros H1 H2; vm_compute in H1, H2;
    try discriminate; cbn; tauto.
Qed.

Lemma from_bytes_result (C : Curve) (data : list byte) (h : heap) :
  fst (Point.from_bytes data (Some C) h)
  = match ec_oct2point (ec_group C) data (Z.of_nat (length data)) with
    | Some _ => Ok (mk_Point (next_handle h) C)
    | None => Error InternalError
    end.
Proof.
  rewrite from_bytes_run. cbn zeta.
  destruct (ec_oct2point _ _ _); reflexivity.
Qed.

Ltac case_if E :=
  match goal with |- context [if ?c then _ else _] => destruct c eqn:E end.

Lemma oct2point_bad_length (g : EC_GROUP) (data : list byte) :
  ~ In (Z.of_nat (length data))
      [1; 1 + BN_num_bytes (field g); 1 + 2 * BN_num_bytes (field g)] ->
  ec_oct2point g data (Z.of_nat (length data)) = None.
Proof.
  intros Hlen. unfold ec_oct2point. destruct data as [|b0 rest]; [reflexivity|].
  cbv zeta.
  case_if E1; [reflexivity|]. case_if E2; [reflexivity|].
  case_if E3.
  - case_if E4; [|reflexivity]. apply Z.eqb_eq in E4. exfalso. apply Hlen. cbn [In]. lia.
  - case_if E5; [reflexivity|]. exfalso. apply Hlen.
    apply negb_false_iff, Z.eqb_eq in E5. rewrite E5.
    case_if E6; cbn [In]; lia.
Qed.

Lemma oct2point_bad_prefix (g : EC_GROUP) (b : byte) (rest : list byte) (len : Z) :
  ~ In (Z_of_octet b) [0; 2; 3; 4; 6; 7] -> ec_oct2point g (b :: rest) len = None.
Proof.
  intros Hb. unfold ec_oct2point. cbv zeta.
  case_if E1; [reflexivity|]. case_if E2; [reflexivity|].
  exfalso. exact (Hb (oct2point_first_byte b E1 E2)).
Qed.

Lemma oct2point_off_curve (g : EC_GROUP) (x y : Z) :
  0 < field g -> 0 <= x < field g -> 0 <= y < field g ->
  ec_is_on_curve g (Affine x y) = false ->
  let k := BN_num_bytes (field g) in
  ec_oct2point g (octet_of_Z 4 :: BN_bn2binpad x (Z.to_nat k) ++ BN_bn2binpad y (Z.to_nat k))
    (1 + 2 * k) = None.
Proof.
  intros Hp Hx Hy Hc k.
  pose proof (BN_num_bytes_pos (field g) Hp) as Hk1.
  pose proof (BN_num_bytes_bound (field g) ltac:(lia)) as Hkb. fold k in Hk1, Hkb.
  assert (Hxk : x mod 256 ^ Z.of_nat (Z.to_nat k) = x)
    by (rewrite Z2Nat.id by lia; apply Z.mod_small; lia).
  assert (Hyk : y mod 256 ^ Z.of_nat (Z.to_nat k) = y)
    by (rewrite Z2Nat.id by lia; apply Z.mod_small; lia).
  assert (Hlx := length_BN_bn2binpad x (Z.to_nat k)).
  assert (Hly := length_BN_bn2binpad y (Z.to_nat k)).
  unfold ec_oct2point. fold k.
  rewrite firstn_app_length, skipn_app_length by exact Hlx.
  rewrite (firstn_all2 (BN_bn2binpad y _)) by lia.
  rewrite !BN_bin2bn_bn2binpad, Hxk, Hyk.
  replace (field g <=? x) with false by (symmetry; apply Z.leb_gt; lia).
  replace (field g <=? y) with false by (symmetry; apply Z.leb_gt; lia).
  cbn -[ec_set_affine_coordinates ec_is_on_curve].
  replace (Z_of_octet (octet_of_Z 4)) with 4 by reflexivity.
  replace (Z.land 4 (Z.lnot 1)) with 4 by reflexivity.
  replace (Z.land 4 1) with 0 by reflexivity.
  cbn -[ec_set_affine_coordinates ec_is_on_curve].
  rewrite Z.eqb_refl. cbn -[ec_set_affine_coordinates ec_is_on_curve].
  unfold ec_set_affine_coordinates. rewrite !Z.mod_small by lia.
  rewrite Hc. reflexivity.
Qed.

Lemma ec_set_compressed_coordinates_none (g : EC_GROUP) (x bit : Z) :
  0 < field g ->
  (forall y, 0 <= y < field g -> ec_is_on_curve g (Affine x y) = false) ->
  ec_set_compressed_coordinates g x bit = None.
Proof.
  intros Hp Hno. unfold ec_set_compressed_coordinates, BN_mod_sqrt.
  destruct (sqrt_from _ _ 0 _) as [y|] eqn:E; [|reflexivity].
  apply sqrt_from_sound in E as [Hr Hs]. rewrite Z2Nat.id in Hr by lia.
  rewrite Zminus_mod_idemp_r in Hs.
  specialize (Hno y ltac:(lia)). cbn in Hno. rewrite Hs in Hno. discriminate.
Qed.

Lemma oct2point_no_root (g : EC_GROUP) (x : Z) (odd : bool) :
  0 < field g -> 0 <= x < field g ->
  (forall y, 0 <= y < field g -> ec_is_on_curve g (Affine x y) = false) ->
  let k := BN_num_bytes (field g) in
  ec_oct2point g (octet_of_Z (if odd then 3 else 2) :: BN_bn2binpad x (Z.to_nat k))
    (1 + k) = None.
Proof.
  intros Hp Hx Hno k.
  pose proof (BN_num_bytes_pos (field g) Hp) as Hk1.
  pose proof (BN_num_bytes_bound (field g) ltac:(lia)) as Hkb. fold k in Hk1, Hkb.
  assert (Hxk : x mod 256 ^ Z.of_nat (Z.to_nat k) = x)
    by (rewrite Z2Nat.id by lia; apply Z.mod_small; lia).
  assert (Hlx := length_BN_bn2binpad x (Z.to_nat k)).
  unfold ec_oct2point. fold k.
  rewrite firstn_all2 by lia. rewrite BN_bin2bn_bn2binpad, Hxk.
  replace (field g <=? x) with false by (symmetry; apply Z.leb_gt; lia).
  destruct odd;
    [replace (Z_of_octet (octet_of_Z 3)) with 3 by reflexivity;
     replace (Z.land 3 (Z.lnot 1)) with 2 by reflexivity
    |replace (Z_of_octet (octet_of_Z 2)) with 2 by reflexivity;
     replace (Z.land 2 (Z.lnot 1)) with 2 by reflexivity];
    cbn -[ec_set_compressed_coordinates ec_is_on_curve];
    rewrite Z.eqb_refl; cbn -[ec_set_compressed_coordinates ec_is_on_curve];
    rewrite ec_set_compressed_coordinates_none by assumption; reflexivity.
Qed.

(** C3 (as amended): [from_bytes] raises, and raises only [InternalError]
    from [openssl_assert], exactly when the provider refuses the octets; it
    does so on a buffer of the wrong length, on a bad first byte, on
    uncompressed coordinates off the curve and on a compressed [x] with no
    point above it. No [DecodingError] is ever raised. *)
Theorem from_bytes_failure (C : Curve) (data : list byte) (h : heap) :
  0 < field (ec_group C) ->
  let g := ec_group C in
  let k := BN_num_bytes (field g) in
  let r := fst (Point.from_bytes data (Some C) h) in
  (forall e, r = Error e -> e = InternalError)
  /\ (r = Error InternalError <-> ec_oct2point g data (Z.of_nat (length data)) = None)
  /\ (~ In (Z.of_nat (length data)) [1; 1 + k; 1 + 2 * k] -> r = Error InternalError)
  /\ (forall b rest, data = b :: rest -> ~ In (Z_of_octet b) [0; 2; 3; 4; 6; 7] ->
        r = Error InternalError)
  /\ (forall x y, 0 <= x < field g -> 0 <= y < field g ->
        ec_is_on_curve g (Affine x y) = false ->
        data = octet_of_Z 4 :: BN_bn2binpad x (Z.to_nat k) ++ BN_bn2binpad y (Z.to_nat k) ->
        r = Error InternalError)
  /\ (forall x (odd : bool), 0 <= x < field g ->
        (forall y, 0 <= y < field g -> ec_is_on_curve g (Affine x y) = false) ->
        data = octet_of_Z (if odd then 3 else 2) :: BN_bn2binpad x (Z.to_nat k) ->
        r = Error InternalError).
Proof.
  intros Hp g k r. unfold r. rewrite from_bytes_result. fold g.
  assert (Hk := BN_num_bytes_pos _ Hp). fold g k in Hk.
  repeat split.
  - intros e0 He. destruct (ec_oct2point g data _); inversion He; reflexivity.
  - destruct (ec_oct2point g data _); [discriminate|reflexivity].
  - intros ->. reflexivity.
  - intros Hl. rewrite oct2point_bad_length by exact Hl. reflexivity.
  - intros b rest -> Hb. rewrite oct2point_bad_prefix by exact Hb. reflexivity.
  - intros x y Hx Hy Hc ->.
    replace (Z.of_nat (length _)) with (1 + 2 * k).
    + rewrite oct2point_off_curve by assumption. reflexivity.
    + cbn [length]. rewrite length_app, !length_BN_bn2binpad. lia.
  - intros x odd Hx Hno ->.
    replace (Z.of_nat (length _)) with (1 + k).
    + rewrite oct2point_no_root by assumption. reflexivity.
    + cbn [length]. rewrite length_BN_bn2binpad. lia.
Qed.

Lemma from_bytes_failure_witness :
  0 < field (ec_group SECP256K1)
  /\ let g := ec_group SECP256K1 in
     let k := BN_num_bytes (field g) in
     let r := fst (Point.from_bytes [x05] (Some SECP256K1) (secp256k1_heap None)) in
     (forall e, r = Error e -> e = InternalError)
     /\ (r = Error InternalError <->
         ec_oct2point g [x05] (Z.of_nat (length [x05])) = None)
     /\ (~ In (Z.of_nat (length [x05])) [1; 1 + k; 1 + 2 * k] -> r = Error InternalError)
     /\ (forall b rest, [x05] = b :: rest -> ~ In (Z_of_octet b) [0; 2; 3; 4; 6; 7] ->
           r = Error InternalError)
     /\ (forall x y, 0 <= x < field g -> 0 <= y < field g ->
           ec_is_on_curve g (Affine x y) = false ->
           [x05] = octet_of_Z 4 :: BN_bn2binpad x (Z.to_nat k)
                     ++ BN_bn2binpad y (Z.to_nat k) ->
           r = Error InternalError)
     /\ (forall x (odd : bool), 0 <= x < field g ->
           (forall y, 0 <= y < field g -> ec_is_on_curve g (Affine x y) = false) ->
           [x05] = octet_of_Z (if odd then 3 else 2) :: BN_bn2binpad x (Z.to_nat k) ->
           r = Error InternalError).
Proof.
  split.
  - vm_compute. reflexivity.
  - apply (from_bytes_failure SECP256K1 [x05] (secp256k1_heap None)).
    vm_compute. reflexivity.
Defined.

(* ------------------------------------------------------------------ *)
(** ** Equality *)

(** C4: [P == Q] is [True] exactly when [EC_POINT_cmp] returns 0; when it
    returns the error sentinel -1, [==] raises [InternalError] (the
    provider-invariant failure of [openssl_assert]) and never returns
    [False]; [False] comes only from a result that is neither 0 nor -1.
    [==] leaves the state as it found it. *)
Theorem eq_iff_cmp_zero (P Q : Point) (h : heap) :
  let c := fst (EC_POINT_cmp (ec_group (curve P)) (ec_point P) (ec_point Q) h) in
  (fst (Point.__eq__ P Q h) = Ok true <-> c = Ok 0)
  /\ (c = Ok (-1) -> fst (Point.__eq__ P Q h) = Error InternalError)
  /\ (fst (Point.__eq__ P Q h) = Ok false <->
      exists n, c = Ok n /\ n <> 0 /\ n <> -1)
  /\ snd (Point.__eq__ P Q h) = h.
Proof.
  destruct (EC_POINT_cmp_ok (ec_group (curve P)) (ec_point P) (ec_point Q) h)
    as [n E].
  intros c. unfold c. rewrite (eq_run P Q h n E), E. cbn [fst snd].
  destruct (Z.eqb_spec n (-1)) as [->|Hm]; [|destruct (Z.eqb_spec n 0) as [->|H0]].
  - split; [split; discriminate|]. split; [intros _; reflexivity|].
    split; [|reflexivity]. split; [discriminate|].
    intros (m & [= <-] & _ & Hm). exfalso. exact (Hm eq_refl).
  - split; [split; reflexivity|]. split; [intros [= Hn]; exfalso; lia|].
    split; [|reflexivity]. split; [discriminate|].
    intros (m & [= <-] & Hm0 & _). exfalso. exact (Hm0 eq_refl).
  - split; [split; [discriminate|intros [= Hn]; exfalso; exact (H0 Hn)]|].
    split; [intros [= Hn]; exfalso; exact (Hm Hn)|].
    split; [|reflexivity]. split; [intros _; exists n; auto|reflexivity].
Qed.

(* ------------------------------------------------------------------ *)
(** ** Negation, addition and subtraction on live points *)

Lemma live_in_ne_next (g : EC_GROUP) (b : handle) (h : heap) (V : ec_coords) :
  heap_wf h -> live_in g b h V -> b <> next_handle h.
Proof. intros Hwf (pt & Hl & _). exact (heap_wf_live_ne h b pt Hwf Hl). Qed.

Lemma live_after_alloc (g : EC_GROUP) (b : handle) (h : heap) (V : ec_coords)
    (v : EC_POINT) :
  heap_wf h -> live_in g b h V ->
  live_in g b (mk_heap (<[next_handle h := v]> (cells h)) (Pos.succ (next_handle h))
                 (config_curve h)) V.
Proof.
  intros Hwf Hl. apply live_in_insert_ne; [|exact Hl].
  intros E. exact (live_in_ne_next g b h V Hwf Hl (eq_sym E)).
Qed.

Lemma neg_run (Q : Point) (h : heap) (V : ec_coords) :
  heap_wf h -> live_in (ec_group (curve Q)) (ec_point Q) h V ->
  Point.__neg__ Q h =
    (Ok (mk_Point (next_handle h) (curve Q)),
     mk_heap (<[next_handle h := mk_EC_POINT (curve_name (ec_group (curve Q)))
                                  (ec_invert (ec_group (curve Q)) V)]> (cells h))
             (Pos.succ (next_handle h)) (config_curve h)).
Proof.
  intros Hwf (pt & Hl & Hc & <-).
  unfold Point.__neg__, EC_POINT_dup, EC_POINT_invert.
  run_M. rewrite Hl, Hc. run_M.
  rewrite lookup_insert_eq, ec_point_is_compat_own. run_M.
  rewrite insert_insert_eq. reflexivity.
Qed.

Lemma add_run (P Q : Point) (h : heap) (VP VQ : ec_coords) :
  heap_wf h ->
  live_in (ec_group (curve P)) (ec_point P) h VP ->
  live_in (ec_group (curve P)) (ec_point Q) h VQ ->
  Point.__add__ P Q h =
    (Ok (mk_Point (next_handle h) (curve P)),
     mk_heap (<[next_handle h := mk_EC_POINT (curve_name (ec_group (curve P)))
                                  (ec_add (ec_group (curve P)) VP VQ)]> (cells h))
             (Pos.succ (next_handle h)) (config_curve h)).
Proof.
  intros Hwf HP HQ.
  assert (HnP := live_in_ne_next _ _ _ _ Hwf HP).
  assert (HnQ := live_in_ne_next _ _ _ _ Hwf HQ).
  destruct HP as (p & Hp & Hcp & <-). destruct HQ as (q & Hq & Hcq & <-).
  unfold Point.__add__, _get_new_EC_POINT, EC_POINT_new, EC_POINT_add.
  run_M. rewrite lookup_insert_eq, !lookup_insert_ne by congruence.
  rewrite Hp, Hq, ec_point_is_compat_own, Hcp, Hcq. run_M.
  rewrite insert_insert_eq. reflexivity.
Qed.

(** One run of [P - Q]: a new live point [VP + (-VQ)], every earlier live
    point kept. *)
Lemma sub_run (P Q : Point) (h : heap) (VP VQ : ec_coords) :
  heap_wf h -> curve Q = curve P ->
  live_in (ec_group (curve P)) (ec_point P) h VP ->
  live_in (ec_group (curve P)) (ec_point Q) h VQ ->
  exists a h',
    Point.__sub__ P Q h = (Ok (mk_Point a (curve P)), h')
    /\ heap_wf h'
    /\ live_in (ec_group (curve P)) a h'
         (ec_add (ec_group (curve P)) VP (ec_invert (ec_group (curve P)) VQ))
    /\ (forall g b V, live_in g b h V -> live_in g b h' V).
Proof.
  intros Hwf HC HP HQ.
  set (g := ec_group (curve P)) in *.
  unfold Point.__sub__, bind at 1.
  rewrite (neg_run Q h VQ Hwf) by (rewrite HC; exact HQ).
  rewrite HC. fold g.
  set (h1 := mk_heap _ _ _).
  assert (Hwf1 : heap_wf h1) by apply heap_wf_alloc, Hwf.
  assert (HP1 : live_in g (ec_point P) h1 VP) by (apply live_after_alloc; auto).
  assert (HN1 : live_in g (next_handle h) h1 (ec_invert g VQ))
    by apply live_in_insert_eq.
  rewrite (add_run P (mk_Point (next_handle h) (curve P)) h1 VP (ec_invert g VQ)
             Hwf1 HP1 HN1).
  eexists _, _. split; [reflexivity|].
  split; [apply heap_wf_alloc, Hwf1|].
  split; [apply live_in_insert_eq|].
  intros g' b V HV.
  apply (live_after_alloc g'); [exact Hwf1|].
  apply (live_after_alloc g'); [exact Hwf|exact HV].
Qed.

(** C5: [__sub__] is by definition [__add__] after [__neg__], and for live
    points [P], [Q] of one curve, [P - Q] compares equal to [P + (-Q)]
    computed afterwards. *)
Theorem sub_eq_add_neg (P Q : Point) (h : heap) (VP VQ : ec_coords) :
  heap_wf h -> curve Q = curve P ->
  live_in (ec_group (curve P)) (ec_point P) h VP ->
  live_in (ec_group (curve P)) (ec_point Q) h VQ ->
  Point.__sub__ P Q = (let* neg_Q := Point.__neg__ Q in Point.__add__ P neg_Q)
  /\ fst (compare_after (Point.__sub__ P Q)
            (let* neg_Q := Point.__neg__ Q in Point.__add__ P neg_Q) h) = Ok true.
Proof.
  intros Hwf HC HP HQ. split; [reflexivity|].
  set (g := ec_group (curve P)) in *.
  set (W := ec_add g VP (ec_invert g VQ)).
  unfold compare_after, bind at 1.
  destruct (sub_run P Q h VP VQ Hwf HC HP HQ) as (a1 & h1 & E1 & Hwf1 & HW1 & Hk1).
  rewrite E1. cbn beta iota.
  change (let* neg_Q := Point.__neg__ Q in Point.__add__ P neg_Q)
    with (Point.__sub__ P Q).
  destruct (sub_run P Q h1 VP VQ Hwf1 HC (Hk1 _ _ _ HP) (Hk1 _ _ _ HQ))
    as (a2 & h2 & E2 & _ & HW2 & Hk2).
  unfold bind at 1. rewrite E2.
  rewrite (eq_run _ _ _ (ec_cmp W W)).
  - rewrite ec_cmp_refl. reflexivity.
  - apply cmp_live; cbn [ec_point curve]; fold g; [apply Hk2, HW1 | exact HW2].
Qed.

Lemma secp256k1_heap_wf (cfg : option Curve) : heap_wf (secp256k1_heap cfg).
Proof.
  intros a v. cbn [cells secp256k1_heap next_handle].
  destruct (decide (a = 1%positive)) as [->|Hne]; [intros _; lia|].
  rewrite lookup_singleton_ne by congruence. discriminate.
Qed.

Lemma secp256k1_generator_live (cfg : option Curve) :
  live_in (ec_group SECP256K1) 1%positive (secp256k1_heap cfg) secp256k1_G.
Proof. exists (mk_EC_POINT 714 secp256k1_G). split; [reflexivity|]. split; reflexivity. Qed.

Lemma sub_eq_add_neg_witness :
  heap_wf (secp256k1_heap None) /\ curve (mk_Point 1%positive SECP256K1) = SECP256K1
  /\ Point.__sub__ (mk_Point 1%positive SECP256K1) (mk_Point 1%positive SECP256K1)
     = (let* neg_Q := Point.__neg__ (mk_Point 1%positive SECP256K1) in
        Point.__add__ (mk_Point 1%positive SECP256K1) neg_Q)
  /\ fst (compare_after
            (Point.__sub__ (mk_Point 1%positive SECP256K1) (mk_Point 1%positive SECP256K1))
            (let* neg_Q := Point.__neg__ (mk_Point 1%positive SECP256K1) in
             Point.__add__ (mk_Point 1%positive SECP256K1) neg_Q)
            (secp256k1_heap None)) = Ok true.
Proof.
  split; [apply secp256k1_heap_wf|]. split; [reflexivity|].
  apply (sub_eq_add_neg (mk_Point 1%positive SECP256K1) (mk_Point 1%positive SECP256K1)
           (secp256k1_heap None) secp256k1_G secp256k1_G).
  - apply secp256k1_heap_wf.
  - reflexivity.
  - apply secp256k1_generator_live.
  - apply secp256k1_generator_live.
Defined.

(* ------------------------------------------------------------------ *)
(** ** Negation makes a new point *)

(** C6: [-P] is a new [Point] on a handle that was free before the call
    (so not [P]'s), holding [-V]; the native point behind [P]'s handle, and
    every other earlier handle, is as it was. *)
Theorem neg_fresh_frame (P : Point) (h : heap) (V : ec_coords) :
  heap_wf h -> live_in (ec_group (curve P)) (ec_point P) h V ->
  exists R h',
    Point.__neg__ P h = (Ok R, h')
    /\ ec_point R <> ec_point P
    /\ cells h !! ec_point R = None
    /\ curve R = curve P
    /\ cells h' !! ec_point P = cells h !! ec_point P
    /\ live_in (ec_group (curve P)) (ec_point P) h' V
    /\ live_in (ec_group (curve P)) (ec_point R) h'
         (ec_invert (ec_group (curve P)) V)
    /\ (forall b, b <> ec_point R -> cells h' !! b = cells h !! b).
Proof.
  intros Hwf Hl.
  assert (Hne := live_in_ne_next _ _ _ _ Hwf Hl).
  rewrite (neg_run P h V Hwf Hl).
  eexists _, _. split; [reflexivity|]. cbn [ec_point curve cells].
  split; [congruence|].
  split; [apply heap_wf_fresh, Hwf|].
  split; [reflexivity|].
  split; [rewrite lookup_insert_ne by congruence; reflexivity|].
  split; [apply live_after_alloc; assumption|].
  split; [apply live_in_insert_eq|].
  intros b Hb. rewrite lookup_insert_ne by congruence. reflexivity.
Qed.

Lemma neg_fresh_frame_witness :
  heap_wf (secp256k1_heap None)
  /\ live_in (ec_group SECP256K1) 1%positive (secp256k1_heap None) secp256k1_G
  /\ exists R h',
    Point.__neg__ (mk_Point 1%positive SECP256K1) (secp256k1_heap None) = (Ok R, h')
    /\ ec_point R <> 1%positive
    /\ cells (secp256k1_heap None) !! ec_point R = None
    /\ curve R = SECP256K1
    /\ cells h' !! 1%positive = cells (secp256k1_heap None) !! 1%positive
    /\ live_in (ec_group SECP256K1) 1%positive h' secp256k1_G
    /\ live_in (ec_group SECP256K1) (ec_point R) h'
         (ec_invert (ec_group SECP256K1) secp256k1_G)
    /\ (forall b, b <> ec_point R -> cells h' !! b = cells (secp256k1_heap None) !! b).
Proof.
  split; [apply secp256k1_heap_wf|]. split; [apply secp256k1_generator_live|].
  apply (neg_fresh_frame (mk_Point 1%positive SECP256K1) (secp256k1_heap None)
           secp256k1_G).
  - apply secp256k1_heap_wf.
  - apply secp256k1_generator_live.
Defined.

(* ------------------------------------------------------------------ *)
(** ** The generator *)

(** C7: two calls of [get_generator_from_curve] for a curve [C] (given, or
    the configured default) return the same [Point], on the shared handle of
    the curve's generator, and these compare equal. *)
Theorem generator_stable (C : Curve) (curve : option Curve) (h : heap) (G : ec_coords) :
  generator_coords C h = Some G ->
  curve = Some C \/ (curve = None /\ config_curve h = Some C) ->
  fst (Point.get_generator_from_curve curve h) = Ok (mk_Point (generator C) C)
  /\ fst (compare_after (Point.get_generator_from_curve curve)
                        (Point.get_generator_from_curve curve) h) = Ok true.
Proof.
  intros HG Hc.
  assert (E : Point.get_generator_from_curve curve h
              = (Ok (mk_Point (generator C) C), h)).
  { unfold Point.get_generator_from_curve, curve_or_default, default_curve.
    destruct Hc as [-> | [-> Hcfg]]; run_M; [reflexivity|].
    rewrite Hcfg. reflexivity. }
  rewrite E. split; [reflexivity|].
  unfold compare_after, bind at 1. rewrite E. cbn beta iota.
  unfold bind at 1. rewrite E. cbn beta iota.
  rewrite (eq_run _ _ _ (ec_cmp G G)).
  - rewrite ec_cmp_refl. reflexivity.
  - apply cmp_live; apply generator_live, HG.
Qed.

Lemma generator_stable_witness :
  generator_coords SECP256K1 (secp256k1_heap None) = Some secp256k1_G
  /\ fst (Point.get_generator_from_curve (Some SECP256K1) (secp256k1_heap None))
     = Ok (mk_Point 1%positive SECP256K1)
  /\ fst (compare_after (Point.get_generator_from_curve (Some SECP256K1))
                        (Point.get_generator_from_curve (Some SECP256K1))
                        (secp256k1_heap None)) = Ok true.
Proof.
  split; [reflexivity|].
  apply (generator_stable SECP256K1 (Some SECP256K1) (secp256k1_heap None) secp256k1_G).
  - reflexivity.
  - left. reflexivity.
Defined.

(* ------------------------------------------------------------------ *)
(** ** The optional curve argument *)

Lemma ret_config_free {A} (a : A) : config_free (ret a).
Proof. intros h c. reflexivity. Qed.

Lemma raise_config_free {A} (e : exn) : config_free (@raise A e).
Proof. intros h c. reflexivity. Qed.

Lemma bind_config_free {A B} (m : M A) (k : A -> M B) :
  config_free m -> (forall a, config_free (k a)) -> config_free (bind m k).
Proof.
  intros Hm Hk h c. unfold bind. rewrite Hm.
  destruct (m h) as [[a|e] h']; cbn [fst snd]; [apply Hk|reflexivity].
Qed.

Lemma deref_config_free (a : handle) : config_free (deref a).
Proof. intros h c. reflexivity. Qed.

Lemma store_config_free (a : handle) (v : EC_POINT) : config_free (store a v).
Proof. intros h c. reflexivity. Qed.

Lemma alloc_config_free (v : EC_POINT) : config_free (alloc v).
Proof. intros h c. reflexivity. Qed.

Lemma openssl_assert_config_free (b : bool) : config_free (openssl_assert b).
Proof. intros h c. destruct b; reflexivity. Qed.

Ltac config_free_auto :=
  repeat first
    [ apply bind_config_free | apply ret_config_free | apply raise_config_free
    | apply deref_config_free | apply store_config_free | apply alloc_config_free
    | apply openssl_assert_config_free
    | progress intros | case_match
    | progress unfold _get_new_EC_POINT, _get_EC_POINT_via_affine, EC_POINT_new,
        EC_POINT_mul, EC_POINT_oct2point, EC_POINT_set_affine_coordinates_GFp ].

Lemma curve_or_default_ops {A} (K : Curve -> M A) :
  (forall C, config_free (K C)) ->
  uses_curve_or_default (fun curve => bind (curve_or_default curve) K).
Proof.
  intros HK. split; [|split].
  - intros C h c1 c2. cbn. rewrite !HK. reflexivity.
  - intros C h. reflexivity.
  - intros h. reflexivity.
Qed.

(** C8: [expected_bytes_length], [gen_rand], [from_affine], [from_bytes] and
    [get_generator_from_curve] each use the curve passed to them, with a
    result that does not depend on the configured default curve, and fall
    back to the configured default (an [UmbralConfigurationError] when none
    is set) only when no curve is passed. *)
Theorem optional_curve_default (is_compressed : bool) (rand_bn : Z) (coords : Z * Z)
    (data : list byte) :
  uses_curve_or_default (fun curve => Point.expected_bytes_length curve is_compressed)
  /\ uses_curve_or_default (fun curve => Point.gen_rand curve rand_bn)
  /\ uses_curve_or_default (fun curve => Point.from_affine coords curve)
  /\ uses_curve_or_default (fun curve => Point.from_bytes data curve)
  /\ uses_curve_or_default Point.get_generator_from_curve.
Proof.
  unfold Point.expected_bytes_length, Point.gen_rand, Point.from_affine,
    Point.from_bytes, Point.get_generator_from_curve.
  repeat split; apply curve_or_default_ops; intros C; config_free_auto.
Qed.

(* ------------------------------------------------------------------ *)
(** ** Addition *)

(** One run of [P + Q]: a new live point [VP + VQ], every earlier live point
    kept. *)
Lemma add_live (P Q : Point) (h : heap) (VP VQ : ec_coords) :
  heap_wf h ->
  live_in (ec_group (curve P)) (ec_point P) h VP ->
  live_in (ec_group (curve P)) (ec_point Q) h VQ ->
  exists h',
    Point.__add__ P Q h = (Ok (mk_Point (next_handle h) (curve P)), h')
    /\ heap_wf h'
    /\ live_in (ec_group (curve P)) (next_handle h) h' (ec_add (ec_group (curve P)) VP VQ)
    /\ (forall g b V, live_in g b h V -> live_in g b h' V).
Proof.
  intros Hwf HP HQ. rewrite (add_run P Q h VP VQ Hwf HP HQ).
  eexists. split; [reflexivity|].
  split; [apply heap_wf_alloc, Hwf|].
  split; [apply live_in_insert_eq|].
  intros g b V HV. apply live_after_alloc; assumption.
Qed.

Lemma all_points_complete (g : EC_GROUP) (A : ec_coords) :
  ec_valid g A = true -> In A (all_points g).
Proof.
  destruct A as [|x y]; [left; reflexivity|]. intros Hv. right.
  pose proof Hv as Hv'. cbn [ec_valid] in Hv'.
  apply andb_prop in Hv' as [Hv' _]. apply andb_prop in Hv' as [Hv' Hy2].
  apply andb_prop in Hv' as [Hv' Hy1]. apply andb_prop in Hv' as [Hx1 Hx2].
  apply Z.leb_le in Hx1, Hy1. apply Z.ltb_lt in Hx2, Hy2.
  apply in_flat_map. exists x. split.
  { apply in_map_iff. exists (Z.to_nat x). split; [apply Z2Nat.id; lia|].
    apply in_seq. lia. }
  apply in_flat_map. exists y. split.
  { apply in_map_iff. exists (Z.to_nat y). split; [apply Z2Nat.id; lia|].
    apply in_seq. lia. }
  rewrite Hv. left. reflexivity.
Qed.

Lemma toy_add_comm (A B : ec_coords) :
  ec_valid toy_group A = true -> ec_valid toy_group B = true ->
  ec_add toy_group A B = ec_add toy_group B A.
Proof.
  intros HA HB.
  assert (Hall : forallb (fun A => forallb (fun B =>
            ec_cmp (ec_add toy_group A B) (ec_add toy_group B A) =? 0)
            (all_points toy_group)) (all_points toy_group) = true)
    by (vm_compute; reflexivity).
  rewrite forallb_forall in Hall.
  specialize (Hall A (all_points_complete _ _ HA)).
  rewrite forallb_forall in Hall.
  specialize (Hall B (all_points_complete _ _ HB)).
  apply Z.eqb_eq, ec_cmp_eq in Hall. exact Hall.
Qed.

Lemma toy_add_assoc (A B D : ec_coords) :
  ec_valid toy_group A = true -> ec_valid toy_group B = true ->
  ec_valid toy_group D = true ->
  ec_add toy_group (ec_add toy_group A B) D = ec_add toy_group A (ec_add toy_group B D).
Proof.
  intros HA HB HD.
  assert (Hall : forallb (fun A => forallb (fun B => forallb (fun D =>
            ec_cmp (ec_add toy_group (ec_add toy_group A B) D)
                   (ec_add toy_group A (ec_add toy_group B D)) =? 0)
            (all_points toy_group)) (all_points toy_group))
            (all_points toy_group) = true)
    by (vm_compute; reflexivity).
  rewrite forallb_forall in Hall.
  specialize (Hall A (all_points_complete _ _ HA)).
  rewrite forallb_forall in Hall.
  specialize (Hall B (all_points_complete _ _ HB)).
  rewrite forallb_forall in Hall.
  specialize (Hall D (all_points_complete _ _ HD)).
  apply Z.eqb_eq, ec_cmp_eq in Hall. exact Hall.
Qed.

Lemma toy3_heap_wf : heap_wf toy3_heap.
Proof.
  intros a v. cbn [cells next_handle toy3_heap].
  rewrite !lookup_insert_Some, lookup_singleton_Some.
  intros [[<- _] | [_ [[<- _] | [_ [<- _]]]]]; lia.
Qed.

Section GroupLaw.

Variables (C : Curve) (h : heap).

(** The group law OpenSSL's [EC_POINT_add] computes: addition of points of
    the curve is commutative and associative. *)
Hypothesis add_comm : forall A B,
  ec_valid (ec_group C) A = true -> ec_valid (ec_group C) B = true ->
  ec_add (ec_group C) A B = ec_add (ec_group C) B A.
Hypothesis add_assoc : forall A B D,
  ec_valid (ec_group C) A = true -> ec_valid (ec_group C) B = true ->
  ec_valid (ec_group C) D = true ->
  ec_add (ec_group C) (ec_add (ec_group C) A B) D
  = ec_add (ec_group C) A (ec_add (ec_group C) B D).
Hypothesis heap_ok : heap_wf h.

(** C9: for live points [P], [Q], [R] of the curve [C] (points of the
    curve), [P + Q == Q + P] and [(P + Q) + R == P + (Q + R)], each side
    computed by the wrapper's [__add__] in turn. *)
Theorem add_comm_assoc (P Q R : Point) (VP VQ VR : ec_coords) :
  curve P = C -> curve Q = C -> curve R = C ->
  live_in (ec_group C) (ec_point P) h VP ->
  live_in (ec_group C) (ec_point Q) h VQ ->
  live_in (ec_group C) (ec_point R) h VR ->
  ec_valid (ec_group C) VP = true -> ec_valid (ec_group C) VQ = true ->
  ec_valid (ec_group C) VR = true ->
  fst (compare_after (Point.__add__ P Q) (Point.__add__ Q P) h) = Ok true
  /\ fst (compare_after (let* PQ := Point.__add__ P Q in Point.__add__ PQ R)
                        (let* QR := Point.__add__ Q R in Point.__add__ P QR) h)
     = Ok true.
Proof.
  intros HCP HCQ HCR HP HQ HR VvP VvQ VvR.
  set (g := ec_group C) in *.
  split.
  - unfold compare_after, bind at 1.
    destruct (add_live P Q h VP VQ heap_ok) as (h1 & E1 & Hwf1 & HS1 & Hk1);
      [rewrite HCP; exact HP | rewrite HCP; exact HQ|].
    rewrite E1. cbn beta iota. unfold bind at 1.
    destruct (add_live Q P h1 VQ VP Hwf1) as (h2 & E2 & _ & HS2 & Hk2);
      [rewrite HCQ; apply Hk1, HQ | rewrite HCQ; apply Hk1, HP|].
    rewrite E2. cbn beta iota.
    rewrite HCP, HCQ in *. fold g in HS1, HS2, Hk1, Hk2.
    rewrite (eq_run _ _ _ (ec_cmp (ec_add g VP VQ) (ec_add g VQ VP))).
    + rewrite (add_comm VP VQ VvP VvQ), ec_cmp_refl. reflexivity.
    + apply cmp_live; cbn [ec_point curve]; fold g; [apply Hk2, HS1 | exact HS2].
  - unfold compare_after, bind at 1. unfold bind at 1.
    destruct (add_live P Q h VP VQ heap_ok) as (h1 & E1 & Hwf1 & HS1 & Hk1);
      [rewrite HCP; exact HP | rewrite HCP; exact HQ|].
    rewrite E1. cbn beta iota.
    rewrite HCP in HS1 |- *. fold g in HS1.
    destruct (add_live (mk_Point (next_handle h) C) R h1 (ec_add g VP VQ) VR Hwf1)
      as (h2 & E2 & Hwf2 & HS2 & Hk2);
      [exact HS1 | apply Hk1, HR|].
    rewrite E2. cbn beta iota. unfold bind at 1. unfold bind at 1.
    destruct (add_live Q R h2 VQ VR Hwf2) as (h3 & E3 & Hwf3 & HS3 & Hk3);
      [rewrite HCQ; apply Hk2, Hk1, HQ | rewrite HCQ; apply Hk2, Hk1, HR|].
    rewrite E3. cbn beta iota.
    rewrite HCQ in HS3 |- *. fold g in HS3.
    destruct (add_live P (mk_Point (next_handle h2) C) h3 VP (ec_add g VQ VR) Hwf3)
      as (h4 & E4 & _ & HS4 & Hk4);
      [rewrite HCP; apply Hk3, Hk2, Hk1, HP | rewrite HCP; exact HS3|].
    rewrite E4. cbn beta iota.
    rewrite HCP in HS4. fold g in HS2, HS4.
    rewrite (eq_run _ _ _ (ec_cmp (ec_add g (ec_add g VP VQ) VR)
                                  (ec_add g VP (ec_add g VQ VR)))).
    + rewrite (add_assoc VP VQ VR VvP VvQ VvR), ec_cmp_refl. reflexivity.
    + apply cmp_live; cbn [ec_point curve]; fold g; [apply Hk4, Hk3, HS2 | exact HS4].
Qed.

End GroupLaw.

Lemma add_comm_assoc_witness :
  heap_wf toy3_heap
  /\ fst (compare_after (Point.__add__ (mk_Point 1%positive TOY) (mk_Point 2%positive TOY))
                        (Point.__add__ (mk_Point 2%positive TOY) (mk_Point 1%positive TOY))
                        toy3_heap) = Ok true
  /\ fst (compare_after
            (let* PQ := Point.__add__ (mk_Point 1%positive TOY) (mk_Point 2%positive TOY) in
             Point.__add__ PQ (mk_Point 3%positive TOY))
            (let* QR := Point.__add__ (mk_Point 2%positive TOY) (mk_Point 3%positive TOY) in
             Point.__add__ (mk_Point 1%positive TOY) QR)
            toy3_heap) = Ok true.
Proof.
  split; [exact toy3_heap_wf|].
  apply (add_comm_assoc TOY toy3_heap toy_add_comm toy_add_assoc toy3_heap_wf
           (mk_Point 1%positive TOY) (mk_Point 2%positive TOY) (mk_Point 3%positive TOY)
           (Affine 1 5) (Affine 2 7) (Affine 3 0));
    try reflexivity;
    (eexists; split; [reflexivity|]; split; reflexivity).
Defined.

(* ------------------------------------------------------------------ *)
(** ** The curve of a new point *)

Lemma ret_on_curve (a : handle) (C : Curve) : returns_on_curve (ret (mk_Point a C)) C.
Proof. intros h R h' [= <- _]. reflexivity. Qed.

Lemma raise_on_curve (e : exn) (C : Curve) : returns_on_curve (raise e) C.
Proof. intros h R h' [=]. Qed.

Lemma bind_on_curve {A} (m : M A) (k : A -> M Point) (C : Curve) :
  (forall a, returns_on_curve (k a) C) -> returns_on_curve (bind m k) C.
Proof.
  intros Hk h R h' E. unfold bind in E.
  destruct (m h) as [[a|e] h1]; [exact (Hk a _ _ _ E)|discriminate].
Qed.

Ltac on_curve_auto :=
  repeat first
    [ apply bind_on_curve | apply ret_on_curve | apply raise_on_curve
    | progress intros | case_match ].

Lemma resolved_curve_tag (c : option Curve) (K : Curve -> M Point) (h : heap)
    (R : Point) (h' : heap) :
  (forall C, returns_on_curve (K C) C) ->
  bind (curve_or_default c) K h = (Ok R, h') ->
  fst (curve_or_default c h) = Ok (curve R).
Proof.
  intros HK E. unfold bind in E.
  destruct (curve_or_default c h) as [[C|e] h1]; [|discriminate].
  cbn [fst]. f_equal. symmetry. exact (HK C _ _ _ E).
Qed.

(** C10: [gen_rand], [from_affine], [from_bytes] and
    [get_generator_from_curve] return a [Point] tagged with the curve the
    call resolved (the one passed, else the configured default);
    [__mul__], [__rmul__], [__add__], [__sub__] and [__neg__] return a
    [Point] tagged with [self]'s curve. The wrapper never compares the
    other operand's curve: [P + Q] reads [Q] only through its native handle
    (whatever curve [Q] is tagged with), and [P - Q] is tagged with [P]'s
    curve whatever [Q]'s is. *)
Theorem curve_tagging :
  (forall c r h R h', Point.gen_rand c r h = (Ok R, h') ->
     fst (curve_or_default c h) = Ok (curve R))
  /\ (forall c xy h R h', Point.from_affine xy c h = (Ok R, h') ->
     fst (curve_or_default c h) = Ok (curve R))
  /\ (forall c data h R h', Point.from_bytes data c h = (Ok R, h') ->
     fst (curve_or_default c h) = Ok (curve R))
  /\ (forall c h R h', Point.get_generator_from_curve c h = (Ok R, h') ->
     fst (curve_or_default c h) = Ok (curve R))
  /\ (forall P n h R h', Point.__mul__ P n h = (Ok R, h') -> curve R = curve P)
  /\ (forall P n h R h', Point.__rmul__ P n h = (Ok R, h') -> curve R = curve P)
  /\ (forall P Q h R h', Point.__add__ P Q h = (Ok R, h') -> curve R = curve P)
  /\ (forall P Q h R h', Point.__sub__ P Q h = (Ok R, h') -> curve R = curve P)
  /\ (forall P h R h', Point.__neg__ P h = (Ok R, h') -> curve R = curve P)
  /\ (forall P Q C', Point.__add__ P Q = Point.__add__ P (mk_Point (ec_point Q) C')).
Proof.
  split; [intros c r h R h' E; eapply (resolved_curve_tag c _ h R h'); [|exact E];
    intros C; on_curve_auto|].
  split; [intros c xy h R h' E; eapply (resolved_curve_tag c _ h R h'); [|exact E];
    intros C; on_curve_auto|].
  split; [intros c data h R h' E; eapply (resolved_curve_tag c _ h R h'); [|exact E];
    intros C; on_curve_auto|].
  split; [intros c h R h' E; eapply (resolved_curve_tag c _ h R h'); [|exact E];
    intros C; on_curve_auto|].
  split; [intros P n; unfold Point.__mul__; on_curve_auto|].
  split; [intros P n; unfold Point.__rmul__, Point.__mul__; on_curve_auto|].
  split; [intros P Q; unfold Point.__add__; on_curve_auto|].
  split; [intros P Q; unfold Point.__sub__, Point.__neg__, Point.__add__; on_curve_auto|].
  split; [intros P; unfold Point.__neg__; on_curve_auto|].
  intros P Q C'. reflexivity.
Qed.

(* ================================================================== *)
(** * Further properties of [point.py] *)

(* ------------------------------------------------------------------ *)
(** ** No method touches a native point that existed before the call *)

Lemma frame_ok_refl (h : heap) : heap_wf h -> frame_ok (next_handle h) h h.
Proof. intros Hwf. repeat split; [exact Hwf|lia]. Qed.

Lemma frame_ok_alloc (b : positive) (h0 h : heap) (v : EC_POINT) :
  frame_ok b h0 h ->
  frame_ok b h0 (mk_heap (<[next_handle h := v]> (cells h)) (Pos.succ (next_handle h))
                   (config_curve h)).
Proof.
  intros (Hwf & Hb & Hc & Hk). split; [apply heap_wf_alloc, Hwf|].
  cbn [next_handle config_curve cells]. split; [lia|]. split; [exact Hc|].
  intros a Ha. rewrite lookup_insert_ne by lia. apply Hk, Ha.
Qed.

Lemma frame_ok_store (b : positive) (h0 h : heap) (r : handle) (v w : EC_POINT) :
  frame_ok b h0 h -> cells h !! r = Some w -> (b <= r)%positive ->
  frame_ok b h0 (mk_heap (<[r := v]> (cells h)) (next_handle h) (config_curve h)).
Proof.
  intros (Hwf & Hb & Hc & Hk) Hr Hbr. split; [apply (heap_wf_store h r v w Hwf Hr)|].
  cbn [next_handle config_curve cells]. split; [exact Hb|]. split; [exact Hc|].
  intros a Ha. rewrite lookup_insert_ne by lia. apply Hk, Ha.
Qed.

Lemma keeps_frame_ret {A} (b : positive) (h0 : heap) (a : A) : keeps_frame b h0 (ret a).
Proof. intros h Hf. exact Hf. Qed.

Lemma keeps_frame_raise {A} (b : positive) (h0 : heap) (e : exn) :
  keeps_frame b h0 (@raise A e).
Proof. intros h Hf. exact Hf. Qed.

Lemma keeps_frame_openssl_assert (b : positive) (h0 : heap) (ok : bool) :
  keeps_frame b h0 (openssl_assert ok).
Proof. intros h Hf. destruct ok; exact Hf. Qed.

Lemma keeps_frame_read {A} (b : positive) (h0 : heap) (m : M A) :
  (forall h, snd (m h) = h) -> keeps_frame b h0 m.
Proof. intros Hm h Hf. rewrite Hm. exact Hf. Qed.

Lemma keeps_frame_bind {A B} (b : positive) (h0 : heap) (m : M A) (k : A -> M B) :
  keeps_frame b h0 m -> (forall a, keeps_frame b h0 (k a)) ->
  keeps_frame b h0 (bind m k).
Proof.
  intros Hm Hk h Hf. unfold bind. specialize (Hm h Hf).
  destruct (m h) as [[a|e] h1]; [exact (Hk a h1 Hm)|exact Hm].
Qed.

(** A new point is allocated above every address the frame protects. *)
Lemma keeps_frame_bind_alloc {B} (b : positive) (h0 : heap) (v : EC_POINT)
    (k : handle -> M B) :
  (forall a, (b <= a)%positive -> keeps_frame b h0 (k a)) ->
  keeps_frame b h0 (bind (alloc v) k).
Proof.
  intros Hk h Hf. unfold bind, alloc. cbn [fst snd].
  apply Hk; [apply Hf|]. apply frame_ok_alloc, Hf.
Qed.

Lemma keeps_frame_bind_dup {B} (b : positive) (h0 : heap) (src : handle) (g : EC_GROUP)
    (k : option handle -> M B) :
  (forall a, (b <= a)%positive -> keeps_frame b h0 (k (Some a))) ->
  keeps_frame b h0 (k None) ->
  keeps_frame b h0 (bind (EC_POINT_dup src g) k).
Proof.
  intros Hk HN h Hf. unfold EC_POINT_dup. run_M.
  destruct (cells h !! src) as [sp|]; [|apply HN, Hf].
  destruct (ec_point_is_compat sp g); [|apply HN, Hf].
  run_M. apply Hk; [apply Hf|]. apply frame_ok_alloc, Hf.
Qed.

Ltac store_frame :=
  intros h Hf; run_M;
  repeat (case_match; run_M);
  solve [ exact Hf | eapply frame_ok_store; eauto ].

Lemma keeps_frame_EC_POINT_mul (b : positive) (h0 : heap) (g : EC_GROUP) (r q : handle)
    (m : Z) :
  (b <= r)%positive -> keeps_frame b h0 (EC_POINT_mul g r q m).
Proof. intros Hr. unfold EC_POINT_mul. store_frame. Qed.

Lemma keeps_frame_EC_POINT_add (b : positive) (h0 : heap) (g : EC_GROUP) (r p q : handle) :
  (b <= r)%positive -> keeps_frame b h0 (EC_POINT_add g r p q).
Proof. intros Hr. unfold EC_POINT_add. store_frame. Qed.

Lemma keeps_frame_EC_POINT_invert (b : positive) (h0 : heap) (g : EC_GROUP) (r : handle) :
  (b <= r)%positive -> keeps_frame b h0 (EC_POINT_invert g r).
Proof. intros Hr. unfold EC_POINT_invert. store_frame. Qed.

Lemma keeps_frame_EC_POINT_oct2point (b : positive) (h0 : heap) (g : EC_GROUP)
    (r : handle) (buf : list byte) (len : Z) :
  (b <= r)%positive -> keeps_frame b h0 (EC_POINT_oct2point g r buf len).
Proof. intros Hr. unfold EC_POINT_oct2point. store_frame. Qed.

Lemma keeps_frame_EC_POINT_set_affine_coordinates_GFp (b : positive) (h0 : heap)
    (g : EC_GROUP) (r : handle) (x y : Z) :
  (b <= r)%positive -> keeps_frame b h0 (EC_POINT_set_affine_coordinates_GFp g r x y).
Proof. intros Hr. unfold EC_POINT_set_affine_coordinates_GFp. store_frame. Qed.

Ltac read_only := intros ?h; run_M; repeat (case_match; run_M); reflexivity.

Lemma curve_or_default_state (c : option Curve) (h : heap) :
  snd (curve_or_default c h) = h.
Proof. destruct c; unfold curve_or_default, default_curve; [|case_match]; reflexivity. Qed.

Lemma EC_POINT_point2oct_state (g : EC_GROUP) (a : handle)
    (form : point_conversion_form) (len : Z) (h : heap) :
  snd (EC_POINT_point2oct g a form len h) = h.
Proof. revert h. unfold EC_POINT_point2oct. read_only. Qed.

Lemma EC_POINT_get_affine_coordinates_GFp_state (g : EC_GROUP) (a : handle) (h : heap) :
  snd (EC_POINT_get_affine_coordinates_GFp g a h) = h.
Proof. revert h. unfold EC_POINT_get_affine_coordinates_GFp. read_only. Qed.

Ltac frame_method :=
  repeat match goal with
  | |- forall _, _ => intro
  | |- keeps_frame _ _ (bind (_get_new_EC_POINT _) _) =>
      unfold _get_new_EC_POINT, EC_POINT_new
  | |- keeps_frame _ _ (bind (alloc _) _) => apply keeps_frame_bind_alloc
  | |- keeps_frame _ _ (bind (EC_POINT_dup _ _) _) => apply keeps_frame_bind_dup
  | |- keeps_frame _ _ (bind _ _) => apply keeps_frame_bind
  | |- keeps_frame _ _ (ret _) => apply keeps_frame_ret
  | |- keeps_frame _ _ (raise _) => apply keeps_frame_raise
  | |- keeps_frame _ _ (openssl_assert _) => apply keeps_frame_openssl_assert
  | |- keeps_frame _ _ (EC_POINT_mul _ _ _ _) =>
      apply keeps_frame_EC_POINT_mul; assumption
  | |- keeps_frame _ _ (EC_POINT_add _ _ _ _) =>
      apply keeps_frame_EC_POINT_add; assumption
  | |- keeps_frame _ _ (EC_POINT_invert _ _) =>
      apply keeps_frame_EC_POINT_invert; assumption
  | |- keeps_frame _ _ (EC_POINT_oct2point _ _ _ _) =>
      apply keeps_frame_EC_POINT_oct2point; assumption
  | |- keeps_frame _ _ (EC_POINT_set_affine_coordinates_GFp _ _ _ _) =>
      apply keeps_frame_EC_POINT_set_affine_coordinates_GFp; assumption
  | |- keeps_frame _ _ (curve_or_default _) =>
      apply keeps_frame_read; apply curve_or_default_state
  | |- keeps_frame _ _ (EC_POINT_cmp _ _ _) =>
      apply keeps_frame_read; apply EC_POINT_cmp_state
  | |- keeps_frame _ _ (EC_POINT_point2oct _ _ _ _) =>
      apply keeps_frame_read; apply EC_POINT_point2oct_state
  | |- keeps_frame _ _ (EC_POINT_get_affine_coordinates_GFp _ _) =>
      apply keeps_frame_read; apply EC_POINT_get_affine_coordinates_GFp_state
  | |- keeps_frame _ _ (_get_EC_POINT_via_affine _ _ _) =>
      unfold _get_EC_POINT_via_affine
  | |- keeps_frame _ _ (_get_affine_coords_via_EC_POINT _ _) =>
      unfold _get_affine_coords_via_EC_POINT
  | |- keeps_frame _ _ (Point.expected_bytes_length _ _) =>
      unfold Point.expected_bytes_length
  | |- keeps_frame _ _ (Point.__add__ _ _) => unfold Point.__add__
  | |- keeps_frame _ _ (Point.__neg__ _) => unfold Point.__neg__
  | |- keeps_frame _ _ (Point.to_bytes _ _) => unfold Point.to_bytes
  | |- keeps_frame _ _ _ => case_match
  end.

Lemma preserves_points_of {A} (m : M A) :
  (forall b h0, keeps_frame b h0 m) -> preserves_points m.
Proof. intros Hm h Hwf. apply Hm, frame_ok_refl, Hwf. Qed.

(** Every method of [Point] keeps the native points that existed before the
    call (in particular a curve's generator, which [get_generator_from_curve]
    shares), the configured default curve and the well-formedness of the
    heap: results only ever go to newly allocated addresses. *)
Theorem point_methods_preserve_points (curve : option Curve) (is_compressed : bool)
    (rand_bn : Z) (coords : Z * Z) (data : list byte) (P Q : Point) (n : Z) :
  preserves_points (Point.expected_bytes_length curve is_compressed)
  /\ preserves_points (Point.gen_rand curve rand_bn)
  /\ preserves_points (Point.from_affine coords curve)
  /\ preserves_points (Point.to_affine P)
  /\ preserves_points (Point.from_bytes data curve)
  /\ preserves_points (Point.to_bytes P is_compressed)
  /\ preserves_points (Point.get_generator_from_curve curve)
  /\ preserves_points (Point.__eq__ P Q)
  /\ preserves_points (Point.__mul__ P n)
  /\ preserves_points (Point.__rmul__ P n)
  /\ preserves_points (Point.__add__ P Q)
  /\ preserves_points (Point.__neg__ P)
  /\ preserves_points (Point.__sub__ P Q)
  /\ preserves_points (Point.__bytes__ P).
Proof.
  unfold Point.gen_rand, Point.from_affine, Point.to_affine, Point.from_bytes,
    Point.to_bytes, Point.get_generator_from_curve, Point.__eq__, Point.__rmul__,
    Point.__mul__, Point.__add__, Point.__sub__, Point.__neg__, Point.__bytes__.
  repeat match goal with |- _ /\ _ => split end;
    apply preserves_points_of; intros b h0; frame_method.
Qed.

Lemma bind_read {A B} (m : M A) (k : A -> M B) (h : heap) :
  snd (m h) = h -> (forall a, snd (k a h) = h) -> snd (bind m k h) = h.
Proof.
  intros Hm Hk. unfold bind.
  destruct (m h) as [[a|e] h1]; cbn [snd] in Hm; subst h1; [apply Hk|reflexivity].
Qed.

Lemma openssl_assert_state (ok : bool) (h : heap) : snd (openssl_assert ok h) = h.
Proof. destruct ok; reflexivity. Qed.

Ltac read_method :=
  repeat match goal with
  | |- forall _, _ => intro
  | |- snd (bind _ _ _) = _ => apply bind_read
  | |- snd (ret _ _) = _ => reflexivity
  | |- snd (raise _ _) = _ => reflexivity
  | |- snd (openssl_assert _ _) = _ => apply openssl_assert_state
  | |- snd (curve_or_default _ _) = _ => apply curve_or_default_state
  | |- snd (EC_POINT_cmp _ _ _ _) = _ => apply EC_POINT_cmp_state
  | |- snd (EC_POINT_point2oct _ _ _ _ _) = _ => apply EC_POINT_point2oct_state
  | |- snd (EC_POINT_get_affine_coordinates_GFp _ _ _) = _ =>
      apply EC_POINT_get_affine_coordinates_GFp_state
  | |- snd (_get_affine_coords_via_EC_POINT _ _ _) = _ =>
      unfold _get_affine_coords_via_EC_POINT
  | |- snd (Point.expected_bytes_length _ _ _) = _ => unfold Point.expected_bytes_length
  | |- snd (Point.to_bytes _ _ _) = _ => unfold Point.to_bytes
  | |- snd _ = _ => case_match
  end.

(** Equality, serialization, [to_affine], [expected_bytes_length] and
    [get_generator_from_curve] are read-only: they leave the whole state,
    addresses included, as they found it. *)
Theorem read_only_methods (curve : option Curve) (is_compressed : bool) (P Q : Point)
    (h : heap) :
  snd (Point.expected_bytes_length curve is_compressed h) = h
  /\ snd (Point.get_generator_from_curve curve h) = h
  /\ snd (Point.to_affine P h) = h
  /\ snd (Point.to_bytes P is_compressed h) = h
  /\ snd (Point.__bytes__ P h) = h
  /\ snd (Point.__eq__ P Q h) = h.
Proof.
  unfold Point.expected_bytes_length, Point.get_generator_from_curve, Point.to_affine,
    Point.__bytes__, Point.__eq__.
  repeat match goal with |- _ /\ _ => split end; read_method.
Qed.

(* ------------------------------------------------------------------ *)
(** ** Affine coordinates *)

Lemma to_affine_run (P : Point) (h : heap) (V : ec_coords) :
  live_in (ec_group (curve P)) (ec_point P) h V ->
  Point.to_affine P h =
    (match V with
     | Infinity => Error InternalError
     | Affine x y => Ok (x, y)
     end, h).
Proof.
  intros (pt & Hl & Hc & <-).
  unfold Point.to_affine, _get_affine_coords_via_EC_POINT,
    EC_POINT_get_affine_coordinates_GFp.
  run_M. rewrite Hl, Hc. destruct (coords pt); run_M; reflexivity.
Qed.

(** [to_affine] returns the coordinates of a live point of its curve and
    raises [InternalError] (through [openssl_assert]) exactly when the point
    is the point at infinity. *)
Theorem to_affine_coords (P : Point) (h : heap) (V : ec_coords) :
  live_in (ec_group (curve P)) (ec_point P) h V ->
  (forall x y, V = Affine x y -> fst (Point.to_affine P h) = Ok (x, y))
  /\ (fst (Point.to_affine P h) = Error InternalError <-> V = Infinity).
Proof.
  intros Hl. rewrite (to_affine_run P h V Hl). cbn [fst].
  split; [intros x y ->; reflexivity|].
  destruct V; split; congruence.
Qed.

Lemma from_affine_run (C : Curve) (x y : Z) (V : ec_coords) (h : heap) :
  ec_set_affine_coordinates (ec_group C) x y = Some V ->
  Point.from_affine (x, y) (Some C) h =
    (Ok (mk_Point (next_handle h) C),
     mk_heap (<[next_handle h := mk_EC_POINT (curve_name (ec_group C)) V]> (cells h))
             (Pos.succ (next_handle h)) (config_curve h)).
Proof.
  intros Hs.
  unfold Point.from_affine, curve_or_default, _get_EC_POINT_via_affine,
    _get_new_EC_POINT, EC_POINT_new, EC_POINT_set_affine_coordinates_GFp.
  run_M. rewrite lookup_insert_eq, ec_point_is_compat_own, Hs. run_M.
  rewrite insert_insert_eq. reflexivity.
Qed.

(** [from_affine(P.to_affine(), C) == P] for every live point [P] of the
    curve [C] other than the point at infinity. *)
Theorem from_affine_to_affine (P : Point) (h : heap) (x y : Z) :
  heap_wf h ->
  live_in (ec_group (curve P)) (ec_point P) h (Affine x y) ->
  ec_valid (ec_group (curve P)) (Affine x y) = true ->
  fst ((let* xy := Point.to_affine P in
        let* Q := Point.from_affine xy (Some (curve P)) in
        Point.__eq__ Q P) h) = Ok true.
Proof.
  intros Hwf Hl Hv.
  assert (Hne := live_in_ne_next _ _ _ _ Hwf Hl).
  unfold bind at 1. rewrite (to_affine_run P h _ Hl). cbn beta iota.
  assert (Hs : ec_set_affine_coordinates (ec_group (curve P)) x y = Some (Affine x y)).
  { cbn [ec_valid] in Hv.
    apply andb_prop in Hv as [Hv Hc]. apply andb_prop in Hv as [Hv Hy2].
    apply andb_prop in Hv as [Hv Hy1]. apply andb_prop in Hv as [Hx1 Hx2].
    apply Z.leb_le in Hx1, Hy1. apply Z.ltb_lt in Hx2, Hy2.
    unfold ec_set_affine_coordinates. rewrite !Z.mod_small by lia. rewrite Hc.
    reflexivity. }
  unfold bind at 1. rewrite (from_affine_run _ x y _ h Hs). cbn beta iota.
  rewrite (eq_run _ _ _ (ec_cmp (Affine x y) (Affine x y))).
  - rewrite ec_cmp_refl. reflexivity.
  - apply cmp_live; cbn [ec_point curve].
    + apply live_in_insert_eq.
    + apply live_in_insert_ne; [congruence|exact Hl].
Qed.

Lemma to_affine_coords_witness :
  live_in (ec_group SECP256K1) 1%positive (secp256k1_heap None) secp256k1_G
  /\ (forall x y, secp256k1_G = Affine x y ->
        fst (Point.to_affine (mk_Point 1%positive SECP256K1) (secp256k1_heap None))
        = Ok (x, y))
  /\ (fst (Point.to_affine (mk_Point 1%positive SECP256K1) (secp256k1_heap None))
      = Error InternalError <-> secp256k1_G = Infinity).
Proof.
  split; [apply secp256k1_generator_live|].
  apply (to_affine_coords (mk_Point 1%positive SECP256K1) (secp256k1_heap None)
           secp256k1_G).
  apply secp256k1_generator_live.
Defined.

Lemma from_affine_to_affine_witness :
  heap_wf (secp256k1_heap None)
  /\ fst ((let* xy := Point.to_affine (mk_Point 1%positive SECP256K1) in
           let* Q := Point.from_affine xy (Some SECP256K1) in
           Point.__eq__ Q (mk_Point 1%positive SECP256K1)) (secp256k1_heap None))
     = Ok true.
Proof.
  split; [apply secp256k1_heap_wf|].
  apply (from_affine_to_affine (mk_Point 1%positive SECP256K1) (secp256k1_heap None)
           (0x79BE667EF9DCBBAC55A06295CE870B07029BFCDB2DCE28D959F2815B16F81798)
           (0x483ADA7726A3C4655DA4FBFC0E1108A8FD17B448A68554199C47D08FFB10D4B8)).
  - apply secp256k1_heap_wf.
  - apply secp256k1_generator_live.
  - vm_compute. reflexivity.
Defined.

(* ------------------------------------------------------------------ *)
(** ** Negation and the point at infinity *)

Lemma ec_valid_y_range (g : EC_GROUP) (x y : Z) :
  ec_valid g (Affine x y) = true -> 0 <= y < field g.
Proof.
  cbn [ec_valid]. intros Hv.
  apply andb_prop in Hv as [Hv _]. apply andb_prop in Hv as [Hv Hy2].
  apply andb_prop in Hv as [_ Hy1]. apply Z.leb_le in Hy1. apply Z.ltb_lt in Hy2. lia.
Qed.

Lemma ec_invert_involutive (g : EC_GROUP) (V : ec_coords) :
  ec_valid g V = true -> ec_invert g (ec_invert g V) = V.
Proof.
  destruct V as [|x y]; [reflexivity|]. intros Hv.
  apply ec_valid_y_range in Hv. cbn [ec_invert].
  destruct (Z.eqb_spec y 0) as [->|Hy]; cbn [ec_invert Z.eqb]; [reflexivity|].
  replace (field g - y =? 0) with false by (symmetry; apply Z.eqb_neq; lia).
  f_equal. ring.
Qed.

Lemma ec_add_invert (g : EC_GROUP) (V : ec_coords) :
  Z.odd (field g) = true -> ec_valid g V = true -> ec_add g V (ec_invert g V) = Infinity.
Proof.
  intros Hodd. destruct V as [|x y]; [reflexivity|]. intros Hv.
  apply ec_valid_y_range in Hv. cbn [ec_invert].
  destruct (Z.eqb_spec y 0) as [->|Hy].
  - cbn [ec_add]. rewrite Z.sub_diag, Z.mod_0_l by lia. cbn [Z.eqb].
    cbn [ec_dbl]. rewrite Z.mod_0_l by lia. reflexivity.
  - cbn [ec_add]. rewrite Z.sub_diag, Z.mod_0_l by lia. cbn [Z.eqb].
    replace ((y - (field g - y)) mod field g =? 0) with false; [reflexivity|].
    symmetry. apply Z.eqb_neq. intros Hm.
    apply Z.mod_divide in Hm; [|lia]. destruct Hm as [q Hq].
    assert (q = 0) as -> by nia.
    assert (E : field g = 2 * y) by lia.
    rewrite E, Z.odd_mul in Hodd. discriminate.
Qed.

(** [-(-P) == P] for every live point [P] of its curve. *)
Theorem neg_neg_eq (P : Point) (h : heap) (V : ec_coords) :
  heap_wf h -> live_in (ec_group (curve P)) (ec_point P) h V ->
  ec_valid (ec_group (curve P)) V = true ->
  fst (compare_after (let* N := Point.__neg__ P in Point.__neg__ N) (ret P) h) = Ok true.
Proof.
  intros Hwf Hl Hv.
  unfold compare_after, bind at 1. unfold bind at 1.
  rewrite (neg_run P h V Hwf Hl). cbn beta iota.
  set (g := ec_group (curve P)) in *.
  set (h1 := mk_heap _ _ _).
  assert (Hwf1 : heap_wf h1) by apply heap_wf_alloc, Hwf.
  assert (HN : live_in g (next_handle h) h1 (ec_invert g V)) by apply live_in_insert_eq.
  rewrite (neg_run (mk_Point (next_handle h) (curve P)) h1 (ec_invert g V) Hwf1 HN).
  cbn beta iota. unfold bind at 1, ret at 1. cbn beta iota. fold g.
  rewrite (eq_run _ _ _ (ec_cmp (ec_invert g (ec_invert g V)) V)).
  - rewrite ec_invert_involutive, ec_cmp_refl by exact Hv. reflexivity.
  - apply cmp_live; cbn [ec_point curve]; fold g.
    + apply live_in_insert_eq.
    + apply (live_after_alloc g); [exact Hwf1|].
      apply (live_after_alloc g); [exact Hwf|exact Hl].
Qed.

Lemma oct2point_infinity (g : EC_GROUP) : ec_oct2point g [x00] 1 = Some Infinity.
Proof. reflexivity. Qed.

(** On a curve over an odd field, [P - P] is the point at infinity: both of
    its serializations are the single byte 0x00, [to_affine] refuses it with
    [InternalError], and it compares equal to [from_bytes(b'\x00')]. *)
Theorem sub_self_infinity (P : Point) (h : heap) (V : ec_coords) :
  heap_wf h -> Z.odd (field (ec_group (curve P))) = true ->
  0 <= field_order_size_in_bytes (curve P) ->
  live_in (ec_group (curve P)) (ec_point P) h V ->
  ec_valid (ec_group (curve P)) V = true ->
  fst ((let* O := Point.__sub__ P P in
        let* b1 := Point.to_bytes O true in
        let* b2 := Point.to_bytes O false in
        ret (b1, b2)) h) = Ok ([x00], [x00])
  /\ fst ((let* O := Point.__sub__ P P in Point.to_affine O) h) = Error InternalError
  /\ fst (compare_after (Point.__sub__ P P)
            (Point.from_bytes [x00] (Some (curve P))) h) = Ok true.
Proof.
  intros Hwf Hodd Hk Hl Hv.
  set (g := ec_group (curve P)) in *.
  destruct (sub_run P P h V V Hwf eq_refl Hl Hl) as (a & h1 & E & Hwf1 & HO & _).
  fold g in HO. rewrite ec_add_invert in HO by assumption.
  pose proof HO as (pt & Hpt & Hc & Hinf).
  assert (Hbytes : forall b, Point.to_bytes (mk_Point a (curve P)) b h1 = (Ok [x00], h1)).
  { intros b. rewrite (to_bytes_run (mk_Point a (curve P)) h1 pt b Hpt Hc), Hinf.
    cbn [ec_point2oct curve].
    destruct b;
      [ replace (1 + field_order_size_in_bytes (curve P) <? 1) with false
      | replace (1 + 2 * field_order_size_in_bytes (curve P) <? 1) with false ];
      try (symmetry; apply Z.ltb_ge; lia); reflexivity. }
  split; [|split].
  - unfold bind at 1. rewrite E. cbn beta iota.
    unfold bind at 1. rewrite Hbytes. cbn beta iota.
    unfold bind at 1. rewrite Hbytes. reflexivity.
  - unfold bind at 1. rewrite E. cbn beta iota.
    rewrite (to_affine_run (mk_Point a (curve P)) h1 Infinity HO). reflexivity.
  - unfold compare_after, bind at 1. rewrite E. cbn beta iota.
    unfold bind at 1. rewrite from_bytes_run. cbn zeta.
    rewrite oct2point_infinity. cbn beta iota.
    assert (Hne : a <> next_handle h1) by exact (live_in_ne_next _ _ _ _ Hwf1 HO).
    rewrite (eq_run _ _ _ (ec_cmp Infinity Infinity)).
    + reflexivity.
    + apply cmp_live; cbn [ec_point curve]; fold g.
      * apply live_in_insert_ne; [congruence|exact HO].
      * apply live_in_insert_eq.
Qed.

Lemma neg_neg_eq_witness :
  heap_wf (secp256k1_heap None)
  /\ fst (compare_after (let* N := Point.__neg__ (mk_Point 1%positive SECP256K1) in
                         Point.__neg__ N)
            (ret (mk_Point 1%positive SECP256K1)) (secp256k1_heap None)) = Ok true.
Proof.
  split; [apply secp256k1_heap_wf|].
  apply (neg_neg_eq (mk_Point 1%positive SECP256K1) (secp256k1_heap None) secp256k1_G).
  - apply secp256k1_heap_wf.
  - apply secp256k1_generator_live.
  - vm_compute. reflexivity.
Defined.

Lemma sub_self_infinity_witness :
  Z.odd (field (ec_group SECP256K1)) = true
  /\ fst ((let* O := Point.__sub__ (mk_Point 1%positive SECP256K1)
                                    (mk_Point 1%positive SECP256K1) in
           let* b1 := Point.to_bytes O true in
           let* b2 := Point.to_bytes O false in
           ret (b1, b2)) (secp256k1_heap None)) = Ok ([x00], [x00])
  /\ fst ((let* O := Point.__sub__ (mk_Point 1%positive SECP256K1)
                                    (mk_Point 1%positive SECP256K1) in
           Point.to_affine O) (secp256k1_heap None)) = Error InternalError
  /\ fst (compare_after (Point.__sub__ (mk_Point 1%positive SECP256K1)
                                        (mk_Point 1%positive SECP256K1))
            (Point.from_bytes [x00] (Some SECP256K1)) (secp256k1_heap None)) = Ok true.
Proof.
  split; [reflexivity|].
  apply (sub_self_infinity (mk_Point 1%positive SECP256K1) (secp256k1_heap None)
           secp256k1_G).
  - apply secp256k1_heap_wf.
  - reflexivity.
  - cbn. lia.
  - apply secp256k1_generator_live.
  - vm_compute. reflexivity.
Defined.

(* ------------------------------------------------------------------ *)
(** ** Equality on live points *)

Lemma ec_cmp_range (V W : ec_coords) : ec_cmp V W = 0 \/ ec_cmp V W = 1.
Proof. destruct V, W; cbn; auto. destruct (_ && _); auto. Qed.

Lemma eq_live (P Q : Point) (h : heap) (VP VQ : ec_coords) :
  live_in (ec_group (curve P)) (ec_point P) h VP ->
  live_in (ec_group (curve P)) (ec_point Q) h VQ ->
  Point.__eq__ P Q h = (Ok (ec_cmp VP VQ =? 0), h).
Proof.
  intros HP HQ. rewrite (eq_run P Q h (ec_cmp VP VQ)) by (apply cmp_live; assumption).
  destruct (ec_cmp_range VP VQ) as [-> | ->]; reflexivity.
Qed.

Lemma ec_cmp_eqb (V W : ec_coords) : (ec_cmp V W =? 0) = true <-> V = W.
Proof. rewrite Z.eqb_eq. apply ec_cmp_eq. Qed.

(** On live points of one curve, [==] never raises: it returns [True]
    exactly when the two native points hold the same value, and so it is
    reflexive, symmetric and transitive. *)
Theorem eq_equivalence (C : Curve) (h : heap) (P Q R : Point) (VP VQ VR : ec_coords) :
  curve P = C -> curve Q = C -> curve R = C ->
  live_in (ec_group C) (ec_point P) h VP ->
  live_in (ec_group C) (ec_point Q) h VQ ->
  live_in (ec_group C) (ec_point R) h VR ->
  (fst (Point.__eq__ P Q h) = Ok true <-> VP = VQ)
  /\ (fst (Point.__eq__ P Q h) = Ok false <-> VP <> VQ)
  /\ fst (Point.__eq__ P P h) = Ok true
  /\ fst (Point.__eq__ P Q h) = fst (Point.__eq__ Q P h)
  /\ (fst (Point.__eq__ P Q h) = Ok true -> fst (Point.__eq__ Q R h) = Ok true ->
      fst (Point.__eq__ P R h) = Ok true).
Proof.
  intros HCP HCQ HCR HP HQ HR.
  assert (EPQ := eq_live P Q h VP VQ ltac:(rewrite HCP; exact HP) ltac:(rewrite HCP; exact HQ)).
  assert (EQP := eq_live Q P h VQ VP ltac:(rewrite HCQ; exact HQ) ltac:(rewrite HCQ; exact HP)).
  assert (EPP := eq_live P P h VP VP ltac:(rewrite HCP; exact HP) ltac:(rewrite HCP; exact HP)).
  assert (EQR := eq_live Q R h VQ VR ltac:(rewrite HCQ; exact HQ) ltac:(rewrite HCQ; exact HR)).
  assert (EPR := eq_live P R h VP VR ltac:(rewrite HCP; exact HP) ltac:(rewrite HCP; exact HR)).
  rewrite EPQ, EQP, EPP, EQR, EPR. cbn [fst].
  split; [|split; [|split; [|split]]].
  - split; [intros [= E]; apply ec_cmp_eqb, E|intros ->; rewrite ec_cmp_refl; reflexivity].
  - split.
    + intros [= E] ->. rewrite ec_cmp_refl in E. discriminate.
    + intros Hne. destruct (ec_cmp VP VQ =? 0) eqn:E; [|reflexivity].
      apply ec_cmp_eqb in E. contradiction.
  - rewrite ec_cmp_refl. reflexivity.
  - destruct (ec_cmp VP VQ =? 0) eqn:E1, (ec_cmp VQ VP =? 0) eqn:E2; try reflexivity.
    + apply ec_cmp_eqb in E1. subst. rewrite ec_cmp_refl in E2. discriminate.
    + apply ec_cmp_eqb in E2. subst. rewrite ec_cmp_refl in E1. discriminate.
  - intros [= E1] [= E2]. apply ec_cmp_eqb in E1, E2. subst.
    rewrite ec_cmp_refl. reflexivity.
Qed.

(** A [Point] whose native point was made for another named curve than
    [self]'s: the wrapper does not check, the provider refuses, and [==],
    [+] and [-] raise [InternalError] through [openssl_assert]. *)
Theorem other_curve_raises (P Q : Point) (h : heap) (pt : EC_POINT) :
  heap_wf h ->
  cells h !! ec_point Q = Some pt ->
  point_curve_name pt = curve_name (ec_group (curve Q)) ->
  curve_name (ec_group (curve P)) <> 0 -> curve_name (ec_group (curve Q)) <> 0 ->
  curve_name (ec_group (curve P)) <> curve_name (ec_group (curve Q)) ->
  fst (Point.__eq__ P Q h) = Error InternalError
  /\ fst (Point.__add__ P Q h) = Error InternalError
  /\ fst (Point.__sub__ P Q h) = Error InternalError.
Proof.
  intros Hwf Hq Hname HnP HnQ Hne.
  assert (Hcompat : forall w, ec_point_is_compat
                      (mk_EC_POINT (curve_name (ec_group (curve Q))) w)
                      (ec_group (curve P)) = false).
  { intros w. unfold ec_point_is_compat. cbn [point_curve_name].
    apply Z.eqb_neq in HnP, HnQ, Hne. rewrite HnP, HnQ, Hne. reflexivity. }
  assert (Hpt : ec_point_is_compat pt (ec_group (curve P)) = false).
  { destruct pt as [n w]. cbn in Hname. subst n. apply Hcompat. }
  assert (Hadd : forall (R : Point) (h1 : heap) (r : EC_POINT),
            cells h1 !! ec_point R = Some r ->
            ec_point_is_compat r (ec_group (curve P)) = false ->
            heap_wf h1 -> fst (Point.__add__ P R h1) = Error InternalError).
  { intros R h1 r Hr Hc Hwf1.
    assert (HnR := heap_wf_live_ne h1 _ r Hwf1 Hr).
    unfold Point.__add__, _get_new_EC_POINT, EC_POINT_new, EC_POINT_add. run_M.
    rewrite lookup_insert_eq, (lookup_insert_ne _ _ (ec_point R)) by congruence.
    rewrite Hr.
    destruct (decide (ec_point P = next_handle h1)) as [E|E].
    - rewrite E, lookup_insert_eq. run_M.
      rewrite ec_point_is_compat_own, Hc, !andb_false_r. reflexivity.
    - rewrite lookup_insert_ne by congruence.
      destruct (cells h1 !! ec_point P) as [p|]; [|reflexivity].
      rewrite Hc, !andb_false_r. reflexivity. }
  split; [|split].
  - unfold Point.__eq__, EC_POINT_cmp. run_M. rewrite Hq, Hpt.
    destruct (cells h !! ec_point P) as [p|]; [|reflexivity].
    rewrite andb_false_r. reflexivity.
  - exact (Hadd Q h pt Hq Hpt Hwf).
  - assert (HlQ : live_in (ec_group (curve Q)) (ec_point Q) h (coords pt)).
    { exists pt. split; [exact Hq|]. split; [|reflexivity].
      unfold ec_point_is_compat. rewrite Hname, Z.eqb_refl, !orb_true_r. reflexivity. }
    unfold Point.__sub__, bind at 1. rewrite (neg_run Q h (coords pt) Hwf HlQ).
    cbn beta iota.
    apply (Hadd _ _ (mk_EC_POINT (curve_name (ec_group (curve Q)))
                       (ec_invert (ec_group (curve Q)) (coords pt)))).
    + cbn [cells ec_point]. apply lookup_insert_eq.
    + apply Hcompat.
    + apply heap_wf_alloc, Hwf.
Qed.

Lemma eq_equivalence_witness :
  fst (Point.__eq__ (mk_Point 1%positive TOY) (mk_Point 2%positive TOY) toy3_heap) = Ok false
  /\ fst (Point.__eq__ (mk_Point 1%positive TOY) (mk_Point 1%positive TOY) toy3_heap) = Ok true.
Proof.
  pose proof (eq_equivalence TOY toy3_heap
                (mk_Point 1%positive TOY) (mk_Point 2%positive TOY) (mk_Point 3%positive TOY)
                (Affine 1 5) (Affine 2 7) (Affine 3 0) eq_refl eq_refl eq_refl
                ltac:(eexists; split; [reflexivity|]; split; reflexivity)
                ltac:(eexists; split; [reflexivity|]; split; reflexivity)
                ltac:(eexists; split; [reflexivity|]; split; reflexivity)) as H.
  destruct H as [_ [[_ Hf] [Hr _]]].
  split; [apply Hf; discriminate | exact Hr].
Defined.

Lemma mixed_heap_wf : heap_wf mixed_heap.
Proof.
  intros a v. cbn [cells next_handle mixed_heap].
  rewrite lookup_insert_Some, lookup_singleton_Some.
  intros [[<- _] | [_ [<- _]]]; lia.
Qed.

Lemma other_curve_raises_witness :
  heap_wf mixed_heap
  /\ fst (Point.__eq__ (mk_Point 1%positive SECP256K1) (mk_Point 2%positive TOY) mixed_heap)
     = Error InternalError
  /\ fst (Point.__add__ (mk_Point 1%positive SECP256K1) (mk_Point 2%positive TOY) mixed_heap)
     = Error InternalError
  /\ fst (Point.__sub__ (mk_Point 1%positive SECP256K1) (mk_Point 2%positive TOY) mixed_heap)
     = Error InternalError.
Proof.
  split; [exact mixed_heap_wf|].
  apply (other_curve_raises (mk_Point 1%positive SECP256K1) (mk_Point 2%positive TOY)
           mixed_heap (mk_EC_POINT 1 (Affine 1 5)) mixed_heap_wf);
    cbn; try reflexivity; discriminate.
Defined.

(* ------------------------------------------------------------------ *)
(** ** Scalar multiplication *)

Lemma mul_run (P : Point) (n : Z) (h : heap) (V : ec_coords) :
  heap_wf h -> live_in (ec_group (curve P)) (ec_point P) h V ->
  Point.__mul__ P n h =
    (Ok (mk_Point (next_handle h) (curve P)),
     mk_heap (<[next_handle h := mk_EC_POINT (curve_name (ec_group (curve P)))
                                  (ec_mul (ec_group (curve P)) n V)]> (cells h))
             (Pos.succ (next_handle h)) (config_curve h)).
Proof.
  intros Hwf HP.
  assert (Hn := live_in_ne_next _ _ _ _ Hwf HP).
  destruct HP as (p & Hp & Hcp & <-).
  unfold Point.__mul__, _get_new_EC_POINT, EC_POINT_new, EC_POINT_mul.
  run_M. rewrite lookup_insert_eq, lookup_insert_ne by congruence.
  rewrite Hp, ec_point_is_compat_own, Hcp. run_M.
  rewrite insert_insert_eq. reflexivity.
Qed.

(** [gen_rand(curve)] with the scalar [r] drawn is the point
    [get_generator_from_curve(curve) * r]: the two compare equal. *)
Theorem gen_rand_generator_mul (C : Curve) (h : heap) (G : ec_coords) (r : Z) :
  heap_wf h -> generator_coords C h = Some G ->
  fst (compare_after (Point.gen_rand (Some C) r)
         (let* Gp := Point.get_generator_from_curve (Some C) in Point.__mul__ Gp r) h)
  = Ok true.
Proof.
  intros Hwf HG.
  assert (HlG := generator_live C h G HG).
  unfold compare_after, bind at 1. rewrite (gen_rand_run C r h G Hwf HG).
  cbn beta iota.
  set (h1 := mk_heap _ _ _).
  assert (Hwf1 : heap_wf h1) by apply heap_wf_alloc, Hwf.
  assert (HlG1 : live_in (ec_group C) (generator C) h1 G)
    by (apply (live_after_alloc (ec_group C)); assumption).
  unfold bind at 1, Point.get_generator_from_curve, curve_or_default.
  unfold bind at 1, ret at 1. cbn beta iota.
  unfold bind at 1, ret at 1. cbn beta iota.
  rewrite (mul_run (mk_Point (generator C) C) r h1 G Hwf1 HlG1).
  cbn beta iota.
  rewrite (eq_run _ _ _ (ec_cmp (ec_mul (ec_group C) r G) (ec_mul (ec_group C) r G))).
  - rewrite ec_cmp_refl. reflexivity.
  - apply cmp_live; cbn [ec_point curve].
    + apply (live_after_alloc (ec_group C)); [exact Hwf1|].
      apply live_in_insert_eq.
    + apply live_in_insert_eq.
Qed.

Lemma gen_rand_generator_mul_witness :
  heap_wf (secp256k1_heap None)
  /\ generator_coords SECP256K1 (secp256k1_heap None) = Some secp256k1_G
  /\ fst (compare_after (Point.gen_rand (Some SECP256K1) 5)
            (let* Gp := Point.get_generator_from_curve (Some SECP256K1) in
             Point.__mul__ Gp 5) (secp256k1_heap None)) = Ok true.
Proof.
  split; [apply secp256k1_heap_wf|]. split; [reflexivity|].
  apply (gen_rand_generator_mul SECP256K1 (secp256k1_heap None) secp256k1_G 5).
  - apply secp256k1_heap_wf.
  - reflexivity.
Defined.

(* ------------------------------------------------------------------ *)
(** ** The octets of [to_bytes] *)

Lemma ec_valid_xy_range (g : EC_GROUP) (x y : Z) :
  ec_valid g (Affine x y) = true -> 0 <= x < field g /\ 0 <= y < field g.
Proof.
  cbn [ec_valid]. intros Hv.
  apply andb_prop in Hv as [Hv _]. apply andb_prop in Hv as [Hv Hy2].
  apply andb_prop in Hv as [Hv Hy1]. apply andb_prop in Hv as [Hx1 Hx2].
  apply Z.leb_le in Hx1, Hy1. apply Z.ltb_lt in Hx2, Hy2. lia.
Qed.

Lemma BN_bn2binpad_field (p x : Z) :
  0 <= x < p -> BN_bin2bn (BN_bn2binpad x (Z.to_nat (BN_num_bytes p))) = x.
Proof.
  intros Hx. rewrite BN_bin2bn_bn2binpad.
  rewrite Z2Nat.id by apply BN_num_bytes_nonneg.
  pose proof (BN_num_bytes_bound p ltac:(lia)).
  apply Z.mod_small. lia.
Qed.

(** When the curve's coordinate size is the octet length of its field
    prime, [to_bytes] of a live affine point [(x, y)] is the SEC1 string:
    compressed, the octet [0x02] or [0x03] after the parity of [y] and then
    [x] in [k] big-endian octets; uncompressed, the octet [0x04], [x] and
    [y] in [k] octets each.  The [k] octets read back give [x] and [y]. *)
Theorem to_bytes_sec1 (P : Point) (h : heap) (x y : Z) :
  live_in (ec_group (curve P)) (ec_point P) h (Affine x y) ->
  ec_valid (ec_group (curve P)) (Affine x y) = true ->
  field_order_size_in_bytes (curve P) = BN_num_bytes (field (ec_group (curve P))) ->
  fst (Point.to_bytes P true h)
    = Ok (octet_of_Z (if Z.odd y then 3 else 2)
          :: BN_bn2binpad x (Z.to_nat (field_order_size_in_bytes (curve P))))
  /\ fst (Point.to_bytes P false h)
    = Ok (octet_of_Z 4
          :: BN_bn2binpad x (Z.to_nat (field_order_size_in_bytes (curve P)))
          ++ BN_bn2binpad y (Z.to_nat (field_order_size_in_bytes (curve P))))
  /\ BN_bin2bn (BN_bn2binpad x (Z.to_nat (field_order_size_in_bytes (curve P)))) = x
  /\ BN_bin2bn (BN_bn2binpad y (Z.to_nat (field_order_size_in_bytes (curve P)))) = y.
Proof.
  intros (pt & Hl & Hc & Hco) Hv Hk.
  destruct (ec_valid_xy_range _ _ _ Hv) as [Hx Hy].
  rewrite Hk.
  set (p := field (ec_group (curve P))) in *.
  pose proof (BN_num_bytes_nonneg p) as Hk0.
  rewrite !(to_bytes_run P h pt _ Hl Hc), Hco. rewrite Hk. cbn [ec_point2oct]. fold p.
  rewrite !Z.ltb_irrefl.
  replace (1 + BN_num_bytes p =? 0) with false by (symmetry; apply Z.eqb_neq; lia).
  replace (1 + 2 * BN_num_bytes p =? 0) with false by (symmetry; apply Z.eqb_neq; lia).
  cbn [fst form_octet].
  split; [|split; [|split]].
  - rewrite app_nil_r, firstn_all2; [|cbn [length]; rewrite length_BN_bn2binpad; lia].
    destruct (Z.odd y); reflexivity.
  - rewrite firstn_all2; [reflexivity|].
    cbn [length]. rewrite length_app, !length_BN_bn2binpad. lia.
  - apply BN_bn2binpad_field; lia.
  - apply BN_bn2binpad_field; lia.
Qed.

Lemma to_bytes_sec1_witness :
  ec_valid secp256k1_group secp256k1_G = true
  /\ fst (Point.to_bytes (mk_Point 1%positive SECP256K1) true (secp256k1_heap None))
     = Ok (octet_of_Z 2
           :: BN_bn2binpad 0x79BE667EF9DCBBAC55A06295CE870B07029BFCDB2DCE28D959F2815B16F81798 32).
Proof.
  split; [vm_compute; reflexivity|].
  destruct (to_bytes_sec1 (mk_Point 1%positive SECP256K1) (secp256k1_heap None)
              0x79BE667EF9DCBBAC55A06295CE870B07029BFCDB2DCE28D959F2815B16F81798
              0x483ADA7726A3C4655DA4FBFC0E1108A8FD17B448A68554199C47D08FFB10D4B8)
    as [H _].
  - apply secp256k1_generator_live.
  - vm_compute. reflexivity.
  - vm_compute. reflexivity.
  - exact H.
Defined.

(** [P * 1 == P], and on a curve over an odd field [P * 0 == P - P]: the
    scalar 0 gives the point at infinity. *)
Theorem mul_one_zero (P : Point) (h : heap) (V : ec_coords) :
  heap_wf h -> Z.odd (field (ec_group (curve P))) = true ->
  live_in (ec_group (curve P)) (ec_point P) h V ->
  ec_valid (ec_group (curve P)) V = true ->
  fst (compare_after (Point.__mul__ P 1) (ret P) h) = Ok true
  /\ fst (compare_after (Point.__mul__ P 0) (Point.__sub__ P P) h) = Ok true.
Proof.
  intros Hwf Hodd Hl Hv.
  set (g := ec_group (curve P)) in *.
  split.
  - unfold compare_after, bind at 1. rewrite (mul_run P 1 h V Hwf Hl).
    cbn beta iota. unfold bind at 1, ret at 1. cbn beta iota.
    rewrite (eq_live _ _ _ V V).
    + rewrite ec_cmp_refl. reflexivity.
    + cbn [curve ec_point]. fold g. apply live_in_insert_eq.
    + cbn [curve ec_point]. fold g.
      apply (live_after_alloc g); assumption.
  - unfold compare_after, bind at 1. rewrite (mul_run P 0 h V Hwf Hl).
    cbn beta iota. fold g.
    set (h1 := mk_heap _ _ _).
    assert (Hwf1 : heap_wf h1) by apply heap_wf_alloc, Hwf.
    assert (Hl1 : live_in g (ec_point P) h1 V)
      by (apply (live_after_alloc g); assumption).
    assert (HO : live_in g (next_handle h) h1 Infinity) by apply live_in_insert_eq.
    destruct (sub_run P P h1 V V Hwf1 eq_refl Hl1 Hl1)
      as (a & h' & Hrun & _ & Ha & Hkeep).
    fold g in Ha. rewrite (ec_add_invert g V Hodd Hv) in Ha.
    unfold bind at 1. rewrite Hrun. cbn beta iota.
    rewrite (eq_live _ _ _ Infinity Infinity); [reflexivity| |exact Ha].
    apply Hkeep, HO.
Qed.

Lemma mul_one_zero_witness :
  Z.odd (field (ec_group SECP256K1)) = true
  /\ fst (compare_after (Point.__mul__ (mk_Point 1%positive SECP256K1) 0)
            (Point.__sub__ (mk_Point 1%positive SECP256K1) (mk_Point 1%positive SECP256K1))
            (secp256k1_heap None)) = Ok true.
Proof.
  split; [reflexivity|].
  apply (mul_one_zero (mk_Point 1%positive SECP256K1) (secp256k1_heap None) secp256k1_G).
  - apply secp256k1_heap_wf.
  - reflexivity.
  - apply secp256k1_generator_live.
  - vm_compute. reflexivity.
Defined.
